(** * TG_Bot: a shallow embedding of the Telegram relay bots

    The repository holds three variants of one webhook bot:
    - [src/index.mjs]: per-chat state [userState], a keyword classifier
      and a language-model fallback for general questions;
    - [src/unnamed/part_000]: per-chat search term [userSearchTerms];
    - [src/bot.mjs]: stateless, fixed query term.

    Conventions of the embedding.
    - A JavaScript string is the [string] of the bytes of its UTF-8
      encoding.  [trim] and [parseFloat] strip every WhiteSpace and
      LineTerminator code point of the language, also those outside of the
      ASCII range; [toLowerCase] maps the letters A to Z and leaves the
      other characters alone.  (Outside of the ASCII range the lower case
      of a character has an ASCII letter in two cases only: U+0130 gives
      an i followed by U+0307, and U+212A gives a k.  The keywords of the
      classifier have no k and no i before U+0307, so the classifier
      decides as it does on the text the runtime lower-cases.)
    - A JavaScript number is a [jsnum]: [NaN], an infinity, or a finite
      value written as an exact decimal.  [parseFloat] rounds what it
      reads to the nearest binary64 value, ties to even, and to an
      infinity beyond the range ([Binary64.of_Q]).
    - [async] functions are computations in the monad [M]: they read and
      write the module-level store, emit the outbound HTTP calls they
      make as a chronological list of events, and either return a value
      or throw.  The answers of the remote services are read from an
      environment [Env]. *)

From Stdlib Require Import ZArith QArith Qpower Qfield Qabs Lqa Ascii String List Bool Lia.
From stdpp Require Import base option gmap strings.

Set Warnings "-register-all".

Open Scope string_scope.
Open Scope list_scope.
Open Scope Z_scope.

(* stdpp freezes [String.append]; the proofs below compute with it. *)
#[local] Arguments String.append !s1 s2 : simpl nomatch.

(** ** Strings *)

Module JsString.

(** [String.prototype.toLowerCase] on the ASCII range. *)
Definition lower_ascii (c : ascii) : ascii :=
  let n := N_of_ascii c in
  if ((65 <=? n) && (n <=? 90))%N then ascii_of_N (n + 32) else c.

Fixpoint toLowerCase (s : string) : string :=
  match s with
  | EmptyString => EmptyString
  | String c s' => String (lower_ascii c) (toLowerCase s')
  end.

(** [s.startsWith(p)]. *)
Fixpoint startsWith (s p : string) {struct p} : bool :=
  match p with
  | EmptyString => true
  | String a p' =>
      match s with
      | EmptyString => false
      | String b s' => Ascii.eqb a b && startsWith s' p'
      end
  end.

(** [s.includes(kw)]: [kw] occurs in [s] at some offset. *)
Fixpoint includes (s kw : string) : bool :=
  startsWith s kw ||
  match s with
  | EmptyString => false
  | String _ s' => includes s' kw
  end.

(** WhiteSpace and LineTerminator code points of the ASCII range:
    TAB, LF, VT, FF, CR and SPACE. *)
Definition is_space (c : ascii) : bool :=
  let n := N_of_ascii c in
  ((9 <=? n) && (n <=? 13) || (n =? 32))%N.

(** U+00A0 (no-break space), in UTF-8. *)
Definition is_space2 (c1 c2 : ascii) : bool :=
  ((N_of_ascii c1 =? 194) && (N_of_ascii c2 =? 160))%N.

(** The WhiteSpace and LineTerminator code points of three bytes: U+1680,
    U+2000 to U+200A, U+2028, U+2029, U+202F, U+205F, U+3000 and U+FEFF. *)
Definition is_space3 (c1 c2 c3 : ascii) : bool :=
  let a := N_of_ascii c1 in
  let b := N_of_ascii c2 in
  let c := N_of_ascii c3 in
  ((a =? 225) && (b =? 154) && (c =? 128)
   || (a =? 226) && (b =? 128)
      && ((128 <=? c) && (c <=? 138) || (c =? 168) || (c =? 169) || (c =? 175))
   || (a =? 226) && (b =? 129) && (c =? 159)
   || (a =? 227) && (b =? 128) && (c =? 128)
   || (a =? 239) && (b =? 187) && (c =? 191))%N.

(** What follows a WhiteSpace or LineTerminator code point at the head of
    [s], if there is one. *)
Definition space_head (s : string) : option string :=
  match s with
  | EmptyString => None
  | String c1 r1 =>
      if is_space c1 then Some r1
      else match r1 with
           | EmptyString => None
           | String c2 r2 =>
               if is_space2 c1 c2 then Some r2
               else match r2 with
                    | EmptyString => None
                    | String c3 r3 => if is_space3 c1 c2 c3 then Some r3 else None
                    end
           end
  end.

Fixpoint trimStart (s : string) : string :=
  match s with
  | EmptyString => EmptyString
  | String c1 r1 =>
      if is_space c1 then trimStart r1
      else match r1 with
           | EmptyString => s
           | String c2 r2 =>
               if is_space2 c1 c2 then trimStart r2
               else match r2 with
                    | EmptyString => s
                    | String c3 r3 => if is_space3 c1 c2 c3 then trimStart r3 else s
                    end
           end
  end.

(** [s] is made of WhiteSpace and LineTerminator code points only. *)
Fixpoint is_blank (s : string) : bool :=
  match s with
  | EmptyString => true
  | String c1 r1 =>
      if is_space c1 then is_blank r1
      else match r1 with
           | EmptyString => false
           | String c2 r2 =>
               if is_space2 c1 c2 then is_blank r2
               else match r2 with
                    | EmptyString => false
                    | String c3 r3 => if is_space3 c1 c2 c3 then is_blank r3 else false
                    end
           end
  end.

(** [trimEnd] drops the longest blank suffix. *)
Fixpoint trimEnd (s : string) : string :=
  match s with
  | EmptyString => EmptyString
  | String c s' => if is_blank s then EmptyString else String c (trimEnd s')
  end.

Definition trim (s : string) : string := trimEnd (trimStart s).

(** [s.split(sep)] for a one-character separator. *)
Fixpoint split (sep : ascii) (s : string) : list string :=
  match s with
  | EmptyString => [EmptyString]
  | String c s' =>
      if Ascii.eqb c sep then EmptyString :: split sep s'
      else match split sep s' with
           | [] => [String c EmptyString]
           | w :: ws => String c w :: ws
           end
  end.

(** [xs.join(sep)] on strings. *)
Fixpoint join (sep : string) (xs : list string) : string :=
  match xs with
  | [] => EmptyString
  | [x] => x
  | x :: xs' => x +:+ sep +:+ join sep xs'
  end.

End JsString.

(** ** The Location-Intent Classifier ([checkIfLocationBased], index.mjs) *)

Definition locationKeywords : list string :=
  ["nearby"; "close to"; "around"; "location"; "near"; "place"].

Definition checkIfLocationBased (query : string) : bool :=
  existsb (fun keyword => JsString.includes (JsString.toLowerCase query) keyword)
          locationKeywords.


(** ** Numbers and values *)

(** A number as the program sees it: [NaN], an infinity, or the finite
    value [(-1)^neg * mant * 10^exp10]; zero keeps its sign. *)
Inductive jsnum :=
| NaN
| Infinity (neg : bool)
| Decimal (neg : bool) (mant : N) (exp10 : Z).

(** What [JSON.parse] and the SDKs hand to the program, and [undefined]. *)
Inductive jsval :=
| JUndefined
| JNull
| JBool (b : bool)
| JNum (n : jsnum)
| JStr (s : string)
| JArr (xs : list jsval)
| JObj (fields : list (string * jsval)).

Inductive exn := TypeError | FetchError | SyntaxError | ApiError.

Inductive outcome (A : Type) :=
| Ok (a : A)
| Throw (e : exn).
Arguments Ok {A} a.
Arguments Throw {A} e.

Module Js.

Definition of_nat (n : nat) : jsval := JNum (Decimal false (N.of_nat n) 0).

(** ToBoolean. *)
Definition truthy (v : jsval) : bool :=
  match v with
  | JUndefined | JNull => false
  | JBool b => b
  | JNum NaN => false
  | JNum (Infinity _) => true
  | JNum (Decimal _ m _) => negb (m =? 0)%N
  | JStr s => negb (String.eqb s "")
  | JArr _ | JObj _ => true
  end.

(** [v === 0]. *)
Definition is_zero (v : jsval) : bool :=
  match v with
  | JNum (Decimal _ m _) => (m =? 0)%N
  | _ => false
  end.

Fixpoint assoc (k : string) (fields : list (string * jsval)) : jsval :=
  match fields with
  | [] => JUndefined
  | (k', v) :: rest => if String.eqb k k' then v else assoc k rest
  end.

(** [v.k] for the property names the program reads ([results], [data],
    [name], [length], [choices], [message], [content]): reading a
    property of [undefined] or [null] throws, an absent property is
    [undefined], arrays and strings have a [length].  The program only
    compares a length with 0; the length of a text is counted in bytes,
    which is 0 for the empty text and for no other. *)
Definition get (v : jsval) (k : string) : outcome jsval :=
  match v with
  | JUndefined | JNull => Throw TypeError
  | JObj fields => Ok (assoc k fields)
  | JArr xs => Ok (if String.eqb k "length" then of_nat (List.length xs) else JUndefined)
  | JStr s => Ok (if String.eqb k "length" then of_nat (String.length s) else JUndefined)
  | JBool _ | JNum _ => Ok JUndefined
  end.

(** [v[0]]. *)
Definition first (v : jsval) : outcome jsval :=
  match v with
  | JUndefined | JNull => Throw TypeError
  | JArr xs => Ok (match xs with [] => JUndefined | x :: _ => x end)
  | JStr s => Ok (match s with
                  | EmptyString => JUndefined
                  | String c _ => JStr (String c EmptyString)
                  end)
  | JObj fields => Ok (assoc "0" fields)
  | JBool _ | JNum _ => Ok JUndefined
  end.

Section ToString.
(** Number::toString of the runtime. *)
Variable Number_toString : jsnum -> string.

(** ToString, as [Array.prototype.join] applies it to an element
    that is neither [undefined] nor [null]. *)
Fixpoint toString (v : jsval) : string :=
  match v with
  | JUndefined => "undefined"
  | JNull => "null"
  | JBool true => "true"
  | JBool false => "false"
  | JNum n => Number_toString n
  | JStr s => s
  | JArr xs =>
      (fix elems (l : list jsval) : string :=
         match l with
         | [] => ""
         | x :: l' =>
             let sx := match x with
                       | JUndefined | JNull => ""
                       | _ => toString x
                       end in
             match l' with
             | [] => sx
             | _ :: _ => sx +:+ "," +:+ elems l'
             end
         end) xs
  | JObj _ => "[object Object]"
  end.

(** The string [join] uses for one element. *)
Definition join_elem (v : jsval) : string :=
  match v with
  | JUndefined | JNull => ""
  | _ => toString v
  end.

(** [xs.join(sep)] on an array of values. *)
Definition join (sep : string) (xs : list jsval) : string :=
  JsString.join sep (map join_elem xs).
End ToString.

End Js.

(** ** Rounding to binary64 *)

Module Binary64.

(** The integer part of the binary logarithm of [n / d], for positive [n]
    and [d]. *)
Definition ilog2 (n d : Z) : Z :=
  let l := Z.log2 n - Z.log2 d in
  if (if 0 <=? l then d * 2 ^ l <=? n else d <=? n * 2 ^ (- l)) then l else l - 1.

(** [n / d] rounded to the nearest integer, ties to the even one. *)
Definition div_nearest_even (n d : Z) : Z :=
  let k := n / d in
  match 2 * (n mod d) ?= d with
  | Lt => k
  | Gt => k + 1
  | Eq => if Z.even k then k else k + 1
  end.

(** The binary64 value [m * 2^e] nearest to [n / d], for positive [n] and
    [d]: 53 bits of significand, exponents from -1074 (subnormal numbers)
    to 971; none when the rounded value is out of range. *)
Definition nearest (n d : Z) : option (Z * Z) :=
  let e := Z.max (ilog2 n d - 52) (-1074) in
  let m := if e <? 0 then div_nearest_even (n * 2 ^ (- e)) d
           else div_nearest_even n (d * 2 ^ e) in
  let '(m', e') := if m =? 2 ^ 53 then (2 ^ 52, e + 1) else (m, e) in
  if 971 <? e' then None else Some (m', e').

Fixpoint strip_zeros (fuel : nat) (m e : Z) : Z * Z :=
  match fuel with
  | O => (m, e)
  | S fuel' =>
      if (e <? 0) && (m mod 10 =? 0) then strip_zeros fuel' (m / 10) (e + 1)
      else (m, e)
  end.

(** [m * 2^e] as an exact decimal without trailing zeros after the
    point. *)
Definition decimal_of (neg : bool) (m e : Z) : jsnum :=
  if m =? 0 then Decimal neg 0 0
  else if 0 <=? e then Decimal neg (Z.to_N (m * 2 ^ e)) 0
  else let '(m', e') := strip_zeros (Z.to_nat (- e)) (m * 5 ^ (- e)) e in
       Decimal neg (Z.to_N m') e'.

(** The Number value of the magnitude [q] with the sign [neg]. *)
Definition of_Q (neg : bool) (q : Q) : jsnum :=
  let q' := Qred q in
  if Qnum q' <=? 0 then Decimal neg 0 0
  else match nearest (Qnum q') (Z.pos (Qden q')) with
       | None => Infinity neg
       | Some (m, e) => decimal_of neg m e
       end.

End Binary64.

(** ** Decimal numerals and [parseFloat] *)

Module Numeral.

Definition is_digit (c : ascii) : bool :=
  let n := N_of_ascii c in ((48 <=? n) && (n <=? 57))%N.

Definition digit_val (c : ascii) : N := (N_of_ascii c - 48)%N.

Fixpoint all_digits (s : string) : bool :=
  match s with
  | EmptyString => true
  | String c s' => is_digit c && all_digits s'
  end.

(** The longest prefix of digits, and what follows it. *)
Fixpoint span_digits (s : string) : string * string :=
  match s with
  | EmptyString => (EmptyString, EmptyString)
  | String c s' =>
      if is_digit c
      then let '(d, r) := span_digits s' in (String c d, r)
      else (EmptyString, s)
  end.

(** The number a digit string denotes, from accumulator [acc]. *)
Fixpoint digits_N (acc : N) (s : string) : N :=
  match s with
  | EmptyString => acc
  | String c s' => digits_N (10 * acc + digit_val c)%N s'
  end.

Definition read_sign (s : string) : bool * string :=
  match s with
  | String "-"%char r => (true, r)
  | String "+"%char r => (false, r)
  | _ => (false, s)
  end.

(** ExponentPart: [e] or [E], an optional sign, at least one digit;
    an incomplete exponent is not part of the numeral. *)
Definition read_exponent (s : string) : Z :=
  match s with
  | String c r =>
      if Ascii.eqb c "e" || Ascii.eqb c "E" then
        let '(neg, r') := read_sign r in
        let '(d, _) := span_digits r' in
        match d with
        | EmptyString => 0
        | _ => let v := Z.of_N (digits_N 0 d) in if neg then - v else v
        end
      else 0
  | EmptyString => 0
  end.

(** [parseFloat(s)]: skip leading white space, then read the longest
    prefix that is a StrDecimalLiteral and round its value to binary64;
    [NaN] when there is none. *)
Definition parseFloat (s : string) : jsnum :=
  let '(neg, r) := read_sign (JsString.trimStart s) in
  if JsString.startsWith r "Infinity" then Infinity neg
  else
    let '(ip, r1) := span_digits r in
    let '(fp, r2) :=
      match r1 with
      | String "."%char r1' => span_digits r1'
      | _ => (EmptyString, r1)
      end in
    match ip +:+ fp with
    | EmptyString => NaN
    | ds => Binary64.of_Q neg
              (inject_Z (Z.of_N (digits_N 0 ds)) *
               Qpower (inject_Z 10) (read_exponent r2 - Z.of_nat (String.length fp)))%Q
    end.

End Numeral.

(** ** Regular expressions *)

Module Regex.

Inductive regex :=
| Never
| Eps
| Chr (c : ascii)
| Digit                       (* \d *)
| Seq (r1 r2 : regex)
| Alt (r1 r2 : regex)
| Star (r : regex).

Definition Opt (r : regex) : regex := Alt r Eps.     (* r? *)
Definition Plus (r : regex) : regex := Seq r (Star r). (* r+ *)

Fixpoint nullable (r : regex) : bool :=
  match r with
  | Never => false
  | Eps => true
  | Chr _ => false
  | Digit => false
  | Seq r1 r2 => nullable r1 && nullable r2
  | Alt r1 r2 => nullable r1 || nullable r2
  | Star _ => true
  end.

Fixpoint deriv (a : ascii) (r : regex) : regex :=
  match r with
  | Never => Never
  | Eps => Never
  | Chr c => if Ascii.eqb a c then Eps else Never
  | Digit => if Numeral.is_digit a then Eps else Never
  | Seq r1 r2 =>
      if nullable r1
      then Alt (Seq (deriv a r1) r2) (deriv a r2)
      else Seq (deriv a r1) r2
  | Alt r1 r2 => Alt (deriv a r1) (deriv a r2)
  | Star r' => Seq (deriv a r') (Star r')
  end.

(** [/^r$/.test(s)]: without the [m] flag the anchors pin the match to
    the whole input. *)
Fixpoint test (r : regex) (s : string) : bool :=
  match s with
  | EmptyString => nullable r
  | String a s' => test (deriv a r) s'
  end.

(** The language of a regular expression. *)
Inductive matches : regex -> string -> Prop :=
| MEps : matches Eps ""
| MChr c : matches (Chr c) (String c "")
| MDigit c : Numeral.is_digit c = true -> matches Digit (String c "")
| MSeq r1 r2 s1 s2 :
    matches r1 s1 -> matches r2 s2 -> matches (Seq r1 r2) (s1 +:+ s2)
| MAltL r1 r2 s : matches r1 s -> matches (Alt r1 r2) s
| MAltR r1 r2 s : matches r2 s -> matches (Alt r1 r2) s
| MStar0 r : matches (Star r) ""
| MStarS r s1 s2 :
    matches r s1 -> matches (Star r) s2 -> matches (Star r) (s1 +:+ s2).

End Regex.

(** ** The Coordinate Parser *)

(** [-?\d+(\.\d+)?] *)
Definition signedDecimalRegex : Regex.regex :=
  Regex.Seq (Regex.Opt (Regex.Chr "-"))
    (Regex.Seq (Regex.Plus Regex.Digit)
       (Regex.Opt (Regex.Seq (Regex.Chr ".") (Regex.Plus Regex.Digit)))).

(** [/^-?\d+(\.\d+)?,-?\d+(\.\d+)?$/] *)
Definition coordinatesRegex : Regex.regex :=
  Regex.Seq signedDecimalRegex (Regex.Seq (Regex.Chr ",") signedDecimalRegex).

(** [isValidCoordinates], the same in the three files. *)
Definition isValidCoordinates (text : string) : bool :=
  Regex.test coordinatesRegex text.

(** [text.split(',').map(coord => parseFloat(coord.trim()))]. *)
Definition splitCoordinates (text : string) : list jsval :=
  map (fun coord => JNum (Numeral.parseFloat (JsString.trim coord)))
      (JsString.split "," text).

(** [const [latitude, longitude] = ...]: a missing element is [undefined]. *)
Definition destructure2 (l : list jsval) : jsval * jsval :=
  match l with
  | [] => (JUndefined, JUndefined)
  | [a] => (a, JUndefined)
  | a :: b :: _ => (a, b)
  end.

(** The parser as the dispatchers use it: the two numbers when
    [isValidCoordinates] accepts the text, nothing otherwise. *)
Definition parseCoordinates (text : string) : option (jsval * jsval) :=
  if isValidCoordinates text
  then Some (destructure2 (splitCoordinates text))
  else None.

(** ** Remote services and the effect monad *)

(** The request of a places search.  [index.mjs] writes these three
    values into the query string of the search URL, the SDK variants
    pass them as the fields [ll], [radius] and [query]. *)
Record places_request := {
  req_ll : jsval * jsval;
  req_radius : Z;
  req_query : jsval
}.

(** The body of [openai.chat.completions.create]; a message is a pair of
    a role and a content. *)
Record completion_request := {
  req_model : string;
  req_messages : list (string * string);
  req_max_tokens : Z
}.

(** What [fetch] followed by [response.json()] can do. *)
Inductive http_reply :=
| NetworkFailure                (* fetch rejects *)
| BodyNotJson                   (* response.json() rejects *)
| JsonBody (data : jsval).

Inductive event :=
| TelegramSend (chatId : Z) (text : string)
| PlacesSearch (req : places_request)
| ChatCompletion (req : completion_request).

(** The world outside of the process. *)
Record Env := {
  (** the POST of [sendMessage]: [None] when the promise resolves *)
  telegram_post : Z -> string -> option exn;
  (** the GET of [index.mjs] on the places search URL *)
  foursquare_get : places_request -> http_reply;
  (** [sdk.placeSearch] of the two SDK variants *)
  sdk_placeSearch : places_request -> outcome jsval;
  (** [openai.chat.completions.create] *)
  openai_create : completion_request -> outcome jsval;
  (** Number::toString of the runtime *)
  Number_toString : jsnum -> string
}.

(** An [async] function over a module-level store [S]. *)
Definition M (S A : Type) : Type := S -> outcome A * S * list event.

Definition ret {S A} (a : A) : M S A := fun s => (Ok a, s, []).
Definition throw {S A} (e : exn) : M S A := fun s => (Throw e, s, []).
Definition bind {S A B} (m : M S A) (k : A -> M S B) : M S B :=
  fun s =>
    match m s with
    | (Ok a, s1, ev1) =>
        match k a s1 with
        | (r, s2, ev2) => (r, s2, ev1 ++ ev2)
        end
    | (Throw e, s1, ev1) => (Throw e, s1, ev1)
    end.
Definition lift {S A} (r : outcome A) : M S A := fun s => (r, s, []).
Definition emit {S} (e : event) : M S unit := fun s => (Ok tt, s, [e]).
Definition read {S} : M S S := fun s => (Ok s, s, []).
Definition write {S} (s' : S) : M S unit := fun _ => (Ok tt, s', []).

(** [try { body } catch (err) { handler }] *)
Definition try_catch {S A} (body : M S A) (handler : exn -> M S A) : M S A :=
  fun s =>
    match body s with
    | (Ok a, s1, ev1) => (Ok a, s1, ev1)
    | (Throw e, s1, ev1) =>
        match handler e s1 with
        | (r, s2, ev2) => (r, s2, ev1 ++ ev2)
        end
    end.

Notation "'do' x <- m ; k" := (bind m (fun x => k))
  (at level 10, x name, m at level 100, k at level 200).

(** [places.map(f)]: only an array has a [map] method. *)
Fixpoint map_outcome {A B} (f : A -> outcome B) (l : list A) : outcome (list B) :=
  match l with
  | [] => Ok []
  | x :: l' =>
      match f x with
      | Throw e => Throw e
      | Ok y =>
          match map_outcome f l' with
          | Throw e => Throw e
          | Ok ys => Ok (y :: ys)
          end
      end
  end.

Definition array_map (f : jsval -> outcome jsval) (v : jsval) : outcome (list jsval) :=
  match v with
  | JArr xs => map_outcome f xs
  | _ => Throw TypeError
  end.

(** [sendMessage], the same in the three files. *)
Definition sendMessage {S} (env : Env) (chatId : Z) (text : string) : M S unit :=
  do _ <- emit (TelegramSend chatId text) ;
  match telegram_post env chatId text with
  | None => ret tt
  | Some e => throw e
  end.

(** [response.choices[0].message.content.trim()] *)
Definition first_choice_text (response : jsval) : outcome string :=
  match Js.get response "choices" with
  | Throw e => Throw e
  | Ok choices =>
      match Js.first choices with
      | Throw e => Throw e
      | Ok choice =>
          match Js.get choice "message" with
          | Throw e => Throw e
          | Ok message =>
              match Js.get message "content" with
              | Throw e => Throw e
              | Ok (JStr content) => Ok (JsString.trim content)
              | Ok _ => Throw TypeError
              end
          end
      end
  end.

(** The call of the completion provider that the summarizing functions
    share: [openai.chat.completions.create({model, messages, max_tokens})]. *)
Definition completions_create {S} (env : Env) (req : completion_request) : M S jsval :=
  do _ <- emit (ChatCompletion req) ;
  lift (openai_create env req).

(** The inbound message of the webhook. *)
Record Message := {
  msg_chat_id : Z;
  msg_text : option string;                 (* [undefined] when absent *)
  msg_location : option (jsnum * jsnum)     (* latitude, longitude *)
}.

(** The double quote character, as a string. *)
Definition dquote : string := String (ascii_of_nat 34) EmptyString.

(** The reply of the SDK variants to a message they cannot use. *)
Definition formatHint : string :=
  "Please send your location or coordinates in the format "
  +:+ dquote +:+ "latitude,longitude" +:+ dquote +:+ ".".

(** [regex.test(text)] converts its argument to a string. *)
Definition text_ToString (text : option string) : string :=
  match text with
  | Some t => t
  | None => "undefined"
  end.

(** ** [src/index.mjs] *)

Module Index.

(** A value of [userState]: [{ awaitingLocation, query }]. *)
Record UserState := {
  awaitingLocation : bool;
  query : string
}.

(** [let userState = {}], keyed by chat identifier. *)
Abbreviation Store := (gmap Z UserState).

Definition idle : UserState := {| awaitingLocation := false; query := "" |}.

(** [userState[chatId]?.awaitingLocation] as a condition. *)
Definition isAwaiting (st : Store) (chatId : Z) : bool :=
  match st !! chatId with
  | Some u => awaitingLocation u
  | None => false
  end.

(** [userState[chatId] = u] *)
Definition setState (chatId : Z) (u : UserState) : M Store unit :=
  do st <- read ;
  write (<[chatId := u]> st).

Definition greeting : string :=
  "Hello! How can I assist you today? Ask me anything!".

Definition systemInstruction : string := "You are a helpful assistant.".

Definition getChatGPTResponse (env : Env) (userQuery : string) : M Store string :=
  let messages := [("system", systemInstruction); ("user", userQuery)] in
  do response <- completions_create env
       {| req_model := "gpt-3.5-turbo";
          req_messages := messages;
          req_max_tokens := 150 |} ;
  do reply <- lift (first_choice_text response) ;
  ret reply.

Definition getNearbyPlaces (env : Env) (latitude longitude : jsval) (query : string)
  : M Store jsval :=
  let radius := 5000 in
  try_catch
    (let req := {| req_ll := (latitude, longitude);
                   req_radius := radius;
                   req_query := JStr query |} in
     do _ <- emit (PlacesSearch req) ;
     match foursquare_get env req with
     | NetworkFailure => throw FetchError
     | BodyNotJson => throw SyntaxError
     | JsonBody data =>
         if Js.truthy data then
           do results <- lift (Js.get data "results") ;
           if Js.truthy results then ret results else ret (JArr [])
         else ret (JArr [])
     end)
    (fun err => ret (JArr [])).

(** The prompt of [getSuggestionsFromGPT3] for the names [names] of
    the places. *)
Definition placesPrompt (env : Env) (names : list jsval) : string :=
  let placeNames := Js.join (Number_toString env) ", " names in
  "Here are some nearby places: " +:+ placeNames +:+
  ". Please suggest the best ones to visit.".

Definition getSuggestionsFromGPT3 (env : Env) (places : jsval) : M Store string :=
  do names <- lift (array_map (fun place => Js.get place "name") places) ;
  let prompt := placesPrompt env names in
  let messages := [("system", systemInstruction); ("user", prompt)] in
  do response <- completions_create env
       {| req_model := "gpt-3.5-turbo";
          req_messages := messages;
          req_max_tokens := 150 |} ;
  do suggestion <- lift (first_choice_text response) ;
  ret suggestion.

Definition notFound (query : string) : string :=
  "I couldn't find any nearby " +:+ query +:+ ". Please try again later.".

(** [!places || places.length === 0] *)
Definition noPlaces (places : jsval) : outcome bool :=
  if negb (Js.truthy places) then Ok true
  else match Js.get places "length" with
       | Ok len => Ok (Js.is_zero len)
       | Throw e => Throw e
       end.

Definition handleLocation (env : Env) (chatId : Z) (latitude longitude : jsval)
    (query : string) : M Store unit :=
  do places <- getNearbyPlaces env latitude longitude query ;
  do none <- lift (noPlaces places) ;
  if (none : bool) then
    sendMessage env chatId (notFound query)          (* ... return *)
  else
    do suggestions <- getSuggestionsFromGPT3 env places ;
    do _ <- sendMessage env chatId suggestions ;
    setState chatId idle.

(** [const { query } = userState[chatId]], read where the entry exists. *)
Definition storedQuery (st : Store) (chatId : Z) : string :=
  match st !! chatId with
  | Some u => query u
  | None => ""
  end.

Definition handleMessage (env : Env) (message : Message) : M Store unit :=
  let chatId := msg_chat_id message in
  let userText := msg_text message in
  if decide (userText = Some "/start") then
    do _ <- setState chatId idle ;
    sendMessage env chatId greeting
  else
    match msg_location message with
    | Some (latitude, longitude) =>
        do st <- read ;
        if isAwaiting st chatId then
          handleLocation env chatId (JNum latitude) (JNum longitude)
            (storedQuery st chatId)
        else
          sendMessage env chatId
            "Thank you for sharing your location! What information do you need?"
    | None =>
        if isValidCoordinates (text_ToString userText) then
          let '(latitude, longitude) :=
            destructure2 (splitCoordinates (text_ToString userText)) in
          do st <- read ;
          if isAwaiting st chatId then
            handleLocation env chatId latitude longitude (storedQuery st chatId)
          else
            sendMessage env chatId
              "Thank you for sharing your coordinates! What information do you need?"
        else
          match userText with
          | None => throw TypeError     (* undefined.toLowerCase() *)
          | Some text =>
              if checkIfLocationBased text then
                do _ <- setState chatId
                     {| awaitingLocation := true; query := JsString.trim text |} ;
                sendMessage env chatId
                  "Got it! Now, please share your location for more accurate suggestions."
              else
                do response <- getChatGPTResponse env text ;
                sendMessage env chatId response
          end
    end.

End Index.

(** ** [src/unnamed/part_000]: the search-term variant *)

Module SearchBot.

(** [let userSearchTerms = {}]: an entry is [null] ([None]) or a string. *)
Abbreviation Store := (gmap Z (option string)).

(** [userSearchTerms[chatId]] as a value. *)
Definition searchTermOf (st : Store) (chatId : Z) : jsval :=
  match st !! chatId with
  | None => JUndefined
  | Some None => JNull
  | Some (Some term) => JStr term
  end.

Definition setTerm (chatId : Z) (term : option string) : M Store unit :=
  do st <- read ;
  write (<[chatId := term]> st).

Definition greeting : string :=
  "Hello! What do you want to search nearby? Please enter your query.".

Definition systemInstruction : string := "You are a helpful assistant.".

Definition getNearbyPlaces (env : Env) (latitude longitude query : jsval)
  : M Store jsval :=
  let radius := 5000 in
  try_catch
    (let req := {| req_ll := (latitude, longitude);
                   req_radius := radius;
                   req_query := query |} in
     do _ <- emit (PlacesSearch req) ;
     do result <- lift (sdk_placeSearch env req) ;
     do data <- lift (Js.get result "data") ;       (* const { data } = ... *)
     do results <- lift (Js.get data "results") ;
     ret results)
    (fun err => ret (JArr [])).

Definition placesPrompt (env : Env) (names : list jsval) : string :=
  let placeNames := Js.join (Number_toString env) ", " names in
  "Here are some nearby places: " +:+ placeNames +:+
  ". Please suggest the best ones to visit.".

Definition getSuggestionsFromGPT3 (env : Env) (places : jsval) : M Store string :=
  do names <- lift (array_map (fun place => Js.get place "name") places) ;
  let prompt := placesPrompt env names in
  let messages := [("system", systemInstruction); ("user", prompt)] in
  do response <- completions_create env
       {| req_model := "gpt-3.5-turbo";
          req_messages := messages;
          req_max_tokens := 150 |} ;
  do suggestion <- lift (first_choice_text response) ;
  ret suggestion.

(** The template literal interpolates the search term, whatever it is. *)
Definition notFound (env : Env) (searchTerm : jsval) : string :=
  "I couldn't find any nearby " +:+ Js.toString (Number_toString env) searchTerm +:+
  ". Please try again later.".

Definition handleLocation (env : Env) (chatId : Z) (latitude longitude : jsval)
  : M Store unit :=
  do st <- read ;
  let searchTerm := searchTermOf st chatId in
  do places <- getNearbyPlaces env latitude longitude searchTerm ;
  do len <- lift (Js.get places "length") ;
  if Js.is_zero len then
    sendMessage env chatId (notFound env searchTerm)     (* ... return *)
  else
    do suggestions <- getSuggestionsFromGPT3 env places ;
    do _ <- sendMessage env chatId suggestions ;
    setTerm chatId None.

(** [message.text] as a condition: present and not empty. *)
Definition hasText (text : option string) : bool :=
  match text with
  | Some t => negb (String.eqb t "")
  | None => false
  end.

Definition handleMessage (env : Env) (message : Message) : M Store unit :=
  let chatId := msg_chat_id message in
  if decide (msg_text message = Some "/start") then
    do _ <- setTerm chatId None ;
    sendMessage env chatId greeting
  else
    do st <- read ;
    if negb (Js.truthy (searchTermOf st chatId)) && hasText (msg_text message) then
      do _ <- setTerm chatId (Some (JsString.trim (text_ToString (msg_text message)))) ;
      sendMessage env chatId "Please share your location."
    else
      match msg_location message with
      | Some (latitude, longitude) =>
          handleLocation env chatId (JNum latitude) (JNum longitude)
      | None =>
          if hasText (msg_text message)
             && isValidCoordinates (text_ToString (msg_text message)) then
            let '(latitude, longitude) :=
              destructure2 (splitCoordinates (text_ToString (msg_text message))) in
            handleLocation env chatId latitude longitude
          else
            sendMessage env chatId
              formatHint
      end.

End SearchBot.

(** ** [src/bot.mjs]: the stateless amusement-park variant *)

Module AmusementBot.

Abbreviation Store := unit.

Definition greeting : string :=
  "Hello! Please share your location to get nearby amusment park suggestions. You can also send your location coordinates in the format "
  +:+ dquote +:+ "latitude,longitude" +:+ dquote +:+ ".".

Definition systemInstruction : string := "You are a helpful assistant.".

Definition getNearbyAmusementParks (env : Env) (latitude longitude : jsval)
  : M Store jsval :=
  let radius := 100000 in
  let query := "amusement" in
  try_catch
    (let req := {| req_ll := (latitude, longitude);
                   req_radius := radius;
                   req_query := JStr query |} in
     do _ <- emit (PlacesSearch req) ;
     do result <- lift (sdk_placeSearch env req) ;
     do data <- lift (Js.get result "data") ;
     do results <- lift (Js.get data "results") ;
     ret results)
    (fun err => ret (JArr [])).

Definition getSuggestionsFromGPT3 (env : Env) (amusementParks : jsval)
  : M Store string :=
  do names <- lift (array_map (fun amusement => Js.get amusement "name") amusementParks) ;
  let amusementNames := Js.join (Number_toString env) ", " names in
  let prompt := "Here are some nearby amusementParks: " +:+ amusementNames +:+
                ". Please suggest the best ones to visit." in
  let messages := [("system", systemInstruction); ("user", prompt)] in
  do response <- completions_create env
       {| req_model := "gpt-3.5-turbo";
          req_messages := messages;
          req_max_tokens := 150 |} ;
  do suggestion <- lift (first_choice_text response) ;
  ret suggestion.

Definition handleLocation (env : Env) (chatId : Z) (latitude longitude : jsval)
  : M Store unit :=
  do amusementParks <- getNearbyAmusementParks env latitude longitude ;
  do len <- lift (Js.get amusementParks "length") ;
  if Js.is_zero len then
    sendMessage env chatId
      "I couldn't find any nearby tourist spots. Please try again later."
  else
    do suggestions <- getSuggestionsFromGPT3 env amusementParks ;
    sendMessage env chatId suggestions.

Definition hasText (text : option string) : bool :=
  match text with
  | Some t => negb (String.eqb t "")
  | None => false
  end.

Definition handleMessage (env : Env) (message : Message) : M Store unit :=
  let chatId := msg_chat_id message in
  if decide (msg_text message = Some "/start") then
    sendMessage env chatId greeting
  else
    match msg_location message with
    | Some (latitude, longitude) =>
        handleLocation env chatId (JNum latitude) (JNum longitude)
    | None =>
        if hasText (msg_text message)
           && isValidCoordinates (text_ToString (msg_text message)) then
          let '(latitude, longitude) :=
            destructure2 (splitCoordinates (text_ToString (msg_text message))) in
          handleLocation env chatId latitude longitude
        else
          sendMessage env chatId
            formatHint
    end.

End AmusementBot.

(** ** Notions of the specification *)

(** [kw] occurs in [s] as a substring. *)
Definition substring_of (kw s : string) : Prop :=
  exists pre post, s = pre +:+ kw +:+ post.

(** Every character of [s] satisfies [p]. *)
Fixpoint all_chars (p : ascii -> bool) (s : string) : bool :=
  match s with
  | EmptyString => true
  | String c s' => p c && all_chars p s'
  end.

(** The text of a signed decimal as the specification describes it: an
    optional minus sign, an integer part of at least one digit and an
    optional decimal part, a point followed by at least one digit. *)
Record SignedDecimal := {
  sd_minus : bool;
  sd_int : string;
  sd_frac : option string
}.

Definition digits1 (s : string) : bool :=
  negb (String.eqb s "") && Numeral.all_digits s.

Definition sd_wf (d : SignedDecimal) : bool :=
  digits1 (sd_int d) &&
  match sd_frac d with
  | None => true
  | Some f => digits1 f
  end.

Definition sd_text (d : SignedDecimal) : string :=
  (if sd_minus d then "-" else "") +:+ sd_int d +:+
  match sd_frac d with
  | None => ""
  | Some f => "." +:+ f
  end.

(** Positional value of a digit string. *)
Fixpoint digits_value (s : string) : Z :=
  match s with
  | EmptyString => 0
  | String c s' =>
      Z.of_N (Numeral.digit_val c) * 10 ^ Z.of_nat (String.length s') + digits_value s'
  end.

(** The magnitude of the rational number a signed decimal denotes. *)
Definition sd_magnitude (d : SignedDecimal) : Q :=
  let frac := match sd_frac d with None => "" | Some f => f end in
  (inject_Z (digits_value (sd_int d)) +
   inject_Z (digits_value frac) / inject_Z (10 ^ Z.of_nat (String.length frac)))%Q.

(** The characters a signed decimal is written with. *)
Definition sd_char (c : ascii) : bool :=
  Numeral.is_digit c || Ascii.eqb c "-" || Ascii.eqb c ".".

(** The Number a signed decimal denotes: the binary64 value nearest to
    its magnitude, with its sign. *)
Definition sd_number (d : SignedDecimal) : jsnum :=
  Binary64.of_Q (sd_minus d) (sd_magnitude d).

(** The value of the finite number [Decimal _ m e], sign apart. *)
Definition decimal_value (m : N) (e : Z) : Q := (inject_Z (Z.of_N m) * 10 ^ e)%Q.

(** The Number [n] stands for the magnitude [q] with the sign [neg] as
    binary64 allows: it is not [NaN]; finite, it is within the relative
    error [2^-53] of [q], or within [2^-1075] of it; an infinity stands for
    a magnitude of [2^1023] or more. *)
Definition rounds_to (neg : bool) (q : Q) (n : jsnum) : Prop :=
  match n with
  | NaN => False
  | Infinity neg' => neg' = neg /\ (2 ^ 1023 <= q)%Q
  | Decimal neg' m e =>
      neg' = neg /\
      (Qabs (decimal_value m e - q) <= q * 2 ^ (-53) + 2 ^ (-1075))%Q
  end.

(** The sign the specification allows before a numeral. *)
Definition optional_sign (sign : string) : Prop :=
  sign = "" \/ sign = "-" \/ sign = "+".

(** [n] zeros. *)
Fixpoint zeros (n : nat) : string :=
  match n with
  | O => ""
  | S n' => String "0" (zeros n')
  end.

(** ["{decimal},{decimal}"], nothing before, between or after. *)
Definition coordinate_shape (s : string) : Prop :=
  exists a b, sd_wf a = true /\ sd_wf b = true /\ s = sd_text a +:+ "," +:+ sd_text b.

(** The coordinates an inbound message carries: a location payload, or a
    text the Coordinate Parser accepts. *)
Definition coordinatesOf (message : Message) : option (jsval * jsval) :=
  match msg_location message with
  | Some (latitude, longitude) => Some (JNum latitude, JNum longitude)
  | None => parseCoordinates (text_ToString (msg_text message))
  end.

(** A reply to the user among the outbound calls. *)
Definition is_reply (e : event) : bool :=
  match e with
  | TelegramSend _ _ => true
  | _ => false
  end.

(** The value an [async] call settles with, its final store and its
    outbound calls. *)
Definition result_of {S A} (x : outcome A * S * list event) : outcome A := fst (fst x).
Definition store_of {S A} (x : outcome A * S * list event) : S := snd (fst x).
Definition events_of {S A} (x : outcome A * S * list event) : list event := snd x.

(** [s] consists of white space only. *)
Definition blank (s : string) : bool := all_chars JsString.is_space s.


(** The exchange the specification prescribes for a prompt: the fixed
    system instruction, one user message, at most 150 output tokens. *)
Definition summarizerExchange (prompt : string) : completion_request :=
  {| req_model := "gpt-3.5-turbo";
     req_messages := [("system", "You are a helpful assistant."); ("user", prompt)];
     req_max_tokens := 150 |}.

(** What the Summarizer settles with once the provider has answered. *)
Definition summarizerAnswer (env : Env) (prompt : string) : outcome string :=
  match openai_create env (summarizerExchange prompt) with
  | Ok response => first_choice_text response
  | Throw e => Throw e
  end.

(** The fixed replies of the Dispatcher of [index.mjs]. *)
Definition thanksLocation : string :=
  "Thank you for sharing your location! What information do you need?".
Definition thanksCoordinates : string :=
  "Thank you for sharing your coordinates! What information do you need?".
Definition askLocation : string :=
  "Got it! Now, please share your location for more accurate suggestions.".

(** The settled value of a send. *)
Definition sent (env : Env) (chatId : Z) (text : string) : outcome unit :=
  match telegram_post env chatId text with
  | None => Ok tt
  | Some e => Throw e
  end.

(** The acknowledgment of a location nobody asked for. *)
Definition thanksFor (message : Message) : string :=
  match msg_location message with
  | Some _ => thanksLocation
  | None => thanksCoordinates
  end.

(** The names of a list, each after the first preceded by a comma and a
    space. *)
Definition comma_joined (names : list string) : string :=
  match names with
  | [] => ""
  | first :: others =>
      first +:+ fold_right (fun name acc => ", " +:+ name +:+ acc) "" others
  end.

(** The place has the name [name]. *)
Definition named (place : jsval) (name : string) : Prop :=
  Js.get place "name" = Ok (JStr name).

(** What the lookup of the SDK variants returns for an answer of the
    SDK: [data.results], or the empty array when anything throws. *)
Definition sdkResults (answer : outcome jsval) : jsval :=
  match answer with
  | Throw _ => JArr []
  | Ok result =>
      match Js.get result "data" with
      | Throw _ => JArr []
      | Ok data =>
          match Js.get data "results" with
          | Throw _ => JArr []
          | Ok results => results
          end
      end
  end.

(** ** Sample data *)

(** An environment in which every send is delivered and every service
    gives the same answer to every request. *)
Definition sample_env (places : http_reply) (sdk completion : outcome jsval) : Env :=
  {| telegram_post := fun _ _ => None;
     foursquare_get := fun _ => places;
     sdk_placeSearch := fun _ => sdk;
     openai_create := fun _ => completion;
     Number_toString := fun _ => "0" |}.

(** A place of the provider and a completion of the language model. *)
Definition sample_place (name : string) : jsval :=
  JObj [("fsq_id", JStr "4b5"); ("name", JStr name)].

Definition sample_completion (text : string) : jsval :=
  JObj [("id", JStr "chatcmpl-1");
        ("choices",
         JArr [JObj [("index", JNum (Decimal false 0 0));
                     ("message", JObj [("role", JStr "assistant");
                                       ("content", JStr text)])]])].

Definition sample_location : jsnum * jsnum :=
  (Numeral.parseFloat "40.7", Numeral.parseFloat "-74.0").

(** A chat waiting for a location with the query ["pizza nearby"]. *)
Definition awaitingPizza : gmap Z Index.UserState :=
  {[ 7 := {| Index.awaitingLocation := true; Index.query := "pizza nearby" |} ]}.

Definition locationMessage : Message :=
  {| msg_chat_id := 7; msg_text := None; msg_location := Some sample_location |}.

Definition textMessage (text : string) : Message :=
  {| msg_chat_id := 7; msg_text := Some text; msg_location := None |}.

(** The search-term variant with the term ["pizza"] stored for the chat. *)
Definition termPizza : gmap Z (option string) := {[ 7 := Some "pizza" ]}.

(** The provider answers with no place at all. *)
Definition env_no_places : Env :=
  sample_env (JsonBody (JObj [("results", JArr [])]))
             (Ok (JObj [("data", JObj [("results", JArr [])])]))
             (Ok (sample_completion "Try the first one.")).

(** The provider knows two places and the language model answers. *)
Definition env_two_places : Env :=
  sample_env (JsonBody (JObj [("results", JArr [sample_place "Luigi"; sample_place "Mario"])]))
             (Ok (JObj [("data", JObj [("results", JArr [sample_place "Luigi"; sample_place "Mario"])])]))
             (Ok (sample_completion "  Luigi is the best.  ")).

(** The provider knows two places and the language model is down. *)
Definition env_model_down : Env :=
  sample_env (JsonBody (JObj [("results", JArr [sample_place "Luigi"; sample_place "Mario"])]))
             (Ok (JObj [("data", JObj [("results", JArr [sample_place "Luigi"; sample_place "Mario"])])]))
             (Throw ApiError).

(** The prompt [getSuggestionsFromGPT3] of [bot.mjs] builds for the names
    of the parks. *)
Definition parksPrompt (env : Env) (names : list jsval) : string :=
  "Here are some nearby amusementParks: " +:+ Js.join (Number_toString env) ", " names +:+
  ". Please suggest the best ones to visit.".

(** ** The webhook and runs of the server *)

(** What [getNearbyPlaces] of [index.mjs] returns for a reply of the
    provider: the [results] of a truthy body when they are truthy, the
    empty array otherwise. *)
Definition fetchResults (reply : http_reply) : jsval :=
  match reply with
  | JsonBody data =>
      match Js.get data "results" with
      | Ok results => if Js.truthy data && Js.truthy results then results else JArr []
      | Throw _ => JArr []
      end
  | _ => JArr []
  end.

(** [app.post('/webhook/...', (req, res) => ...)], the same in the three
    files: a body without [message] is ignored, a message is handed to
    [handleMessage] whose promise nobody awaits, and the answer is status 200
    in every case.  The run of the handler is taken to its end. *)
Definition webhook {S} (handleMessage : Env -> Message -> M S unit)
    (env : Env) (message : option Message) (st : S) : Z * S * list event :=
  match message with
  | None => (200, st, [])
  | Some m =>
      match handleMessage env m st with
      | (_, st', evs) => (200, st', evs)
      end
  end.




(** The outbound call is addressed to the provider or to chat [chatId]. *)
Definition addressed_to (chatId : Z) (e : event) : Prop :=
  match e with
  | TelegramSend c _ => c = chatId
  | _ => True
  end.

(** The outbound call, if it is a completion request, is an exchange of
    the Summarizer. *)
Definition is_exchange (e : event) : Prop :=
  match e with
  | ChatCompletion req => exists prompt, req = summarizerExchange prompt
  | _ => True
  end.

(** The outbound call is a places search. *)
Definition is_search (e : event) : bool :=
  match e with
  | PlacesSearch _ => true
  | _ => false
  end.

(** The keywords of the classifier without ["nearby"]. *)
Definition keywordsWithoutNearby : list string :=
  ["close to"; "around"; "location"; "near"; "place"].

(** A byte that can occur in a WhiteSpace or LineTerminator code point:
    ASCII white space, or a byte of a longer UTF-8 sequence. *)
Definition space_byte (c : ascii) : bool :=
  JsString.is_space c || (128 <=? N_of_ascii c)%N.



(** No white space code point at the head of [t] and no blank suffix
    other than the empty one. *)
Definition unicode_trimmed (t : string) : Prop :=
  JsString.space_head t = None /\
  (forall r w, t = r +:+ w -> JsString.is_blank w = true -> w = "").

(** White space beyond the ASCII range, in UTF-8: U+00A0 and U+3000. *)
Definition nbsp : string := String (ascii_of_nat 194) (String (ascii_of_nat 160) "").

Definition ideographic_space : string :=
  String (ascii_of_nat 227) (String (ascii_of_nat 128) (String (ascii_of_nat 128) "")).

Definition newline : string := String (ascii_of_nat 10) "".

(** The outbound call is a completion request. *)
Definition is_completion (e : event) : bool :=
  match e with
  | ChatCompletion _ => true
  | _ => false
  end.

(** A place that may lack its name. *)
Definition named_or_not (place : jsval) (name : option string) : Prop :=
  Js.get place "name" = Ok (match name with Some n => JStr n | None => JUndefined end).

(** * Properties *)

(** Case analysis on the eight bits of a character [c] constrained by the
    next hypothesis of the goal; the impossible cases are closed. *)
Ltac char_cases c H :=
  destruct c as [[] [] [] [] [] [] [] []]; intros H; try discriminate H.

(** ** Strings *)

Lemma append_nil_r (s : string) : s +:+ "" = s.
Proof. induction s as [|c s IH]; simpl; [reflexivity | now rewrite IH]. Qed.

Lemma append_assoc (s1 s2 s3 : string) : (s1 +:+ s2) +:+ s3 = s1 +:+ s2 +:+ s3.
Proof. induction s1 as [|c s1 IH]; simpl; [reflexivity | now rewrite IH]. Qed.

Lemma append_eq_nil (s1 s2 : string) : s1 +:+ s2 = "" -> s1 = "" /\ s2 = "".
Proof. destruct s1; simpl; [auto | discriminate]. Qed.

Lemma append_eq_cons (s1 s2 s : string) (a : ascii) :
  s1 +:+ s2 = String a s ->
  (s1 = "" /\ s2 = String a s) \/ (exists s1', s1 = String a s1' /\ s = s1' +:+ s2).
Proof.
  destruct s1 as [|c s1]; simpl; intros H.
  - left; auto.
  - right. injection H as -> <-. eauto.
Qed.

Lemma startsWith_iff (s p : string) :
  JsString.startsWith s p = true <-> exists post, s = p +:+ post.
Proof.
  revert s; induction p as [|a p IH]; intros s; simpl.
  - split; [intros _; exists s; reflexivity | reflexivity].
  - destruct s as [|b s].
    + split; [discriminate | intros [post H]; discriminate].
    + rewrite andb_true_iff, IH, Ascii.eqb_eq. split.
      * intros [-> [post ->]]. exists post; reflexivity.
      * intros [post H]. injection H as -> ->. split; eauto.
Qed.

Lemma includes_iff (s kw : string) :
  JsString.includes s kw = true <-> substring_of kw s.
Proof.
  unfold substring_of. induction s as [|c s IH].
  - simpl. rewrite orb_false_r, startsWith_iff. split.
    + intros [post H]. exists "", post. exact H.
    + intros (pre & post & H). symmetry in H.
      apply append_eq_nil in H as [-> H]. exists post. now rewrite H.
  - cbn [JsString.includes]. rewrite orb_true_iff, IH, startsWith_iff. split.
    + intros [[post H] | (pre & post & H)].
      * exists "", post. exact H.
      * exists (String c pre), post. simpl. now rewrite H.
    + intros (pre & post & H). destruct pre as [|c' pre]; simpl in H.
      * left. eauto.
      * right. injection H as _ H. eauto.
Qed.

(** ** Regular expressions: the matcher decides the language *)

Module RegexFacts.
Import Regex.

Lemma matches_seq_inv r1 r2 s :
  matches (Seq r1 r2) s ->
  exists s1 s2, s = s1 +:+ s2 /\ matches r1 s1 /\ matches r2 s2.
Proof. intros H; inversion H; subst; eauto. Qed.

Lemma matches_alt_inv r1 r2 s :
  matches (Alt r1 r2) s -> matches r1 s \/ matches r2 s.
Proof. intros H; inversion H; subst; auto. Qed.

Lemma matches_star_cons r a s :
  matches (Star r) (String a s) ->
  exists s1 s2, s = s1 +:+ s2 /\ matches r (String a s1) /\ matches (Star r) s2.
Proof.
  intros H. remember (Star r) as r0 eqn:Hr. remember (String a s) as w eqn:Hw.
  revert s Hw. induction H as [| | | | | | |r' s1 s2 H1 _ H2 IH2]; intros t Hw;
    try discriminate.
  injection Hr as ->.
  apply append_eq_cons in Hw as [[-> ->] | (s1' & -> & ->)].
  - apply IH2; reflexivity.
  - eauto.
Qed.

Lemma nullable_iff r : nullable r = true <-> matches r "".
Proof.
  induction r as [| | c | |r1 IH1 r2 IH2|r1 IH1 r2 IH2|r IH]; simpl.
  - split; [discriminate | intros H; inversion H].
  - split; [constructor | reflexivity].
  - split; [discriminate | intros H; inversion H].
  - split; [discriminate | intros H; inversion H].
  - rewrite andb_true_iff, IH1, IH2. split.
    + intros [H1 H2]. change "" with ("" +:+ ""). now constructor.
    + intros H. apply matches_seq_inv in H as (s1 & s2 & E & H1 & H2).
      symmetry in E. apply append_eq_nil in E as [-> ->]. auto.
  - rewrite orb_true_iff, IH1, IH2. split.
    + intros [H | H]; [now apply MAltL | now apply MAltR].
    + apply matches_alt_inv.
  - split; [constructor | reflexivity].
Qed.

Lemma deriv_iff a r s : matches (deriv a r) s <-> matches r (String a s).
Proof.
  revert s.
  induction r as [| | c | |r1 IH1 r2 IH2|r1 IH1 r2 IH2|r IH]; intros s; simpl.
  - split; intros H; inversion H.
  - split; intros H; inversion H.
  - destruct (Ascii.eqb a c) eqn:E.
    + apply Ascii.eqb_eq in E as ->. split; intros H; inversion H; subst; constructor.
    + split; intros H; inversion H; subst. rewrite Ascii.eqb_refl in E. discriminate.
  - destruct (Numeral.is_digit a) eqn:E.
    + split; intros H; inversion H; subst; now constructor.
    + split; intros H; inversion H; subst. congruence.
  - assert (Hseq : matches (Seq (deriv a r1) r2) s <->
                   exists s1 s2, s = s1 +:+ s2 /\ matches r1 (String a s1) /\ matches r2 s2).
    { split.
      - intros H. apply matches_seq_inv in H as (s1 & s2 & -> & H1 & H2).
        apply IH1 in H1. eauto.
      - intros (s1 & s2 & -> & H1 & H2). constructor; [now apply IH1 | assumption]. }
    assert (Hall : matches (Seq r1 r2) (String a s) <->
                   (matches r1 "" /\ matches r2 (String a s)) \/
                   exists s1 s2, s = s1 +:+ s2 /\ matches r1 (String a s1) /\ matches r2 s2).
    { split.
      - intros H. apply matches_seq_inv in H as (s1 & s2 & E & H1 & H2).
        symmetry in E. apply append_eq_cons in E as [[-> ->] | (s1' & -> & ->)];
          [left | right]; eauto.
      - intros [[H1 H2] | (s1 & s2 & -> & H1 & H2)].
        + change (String a s) with ("" +:+ String a s). now constructor.
        + change (String a (s1 +:+ s2)) with (String a s1 +:+ s2). now constructor. }
    rewrite Hall. destruct (nullable r1) eqn:N.
    + apply nullable_iff in N. split.
      * intros H. apply matches_alt_inv in H as [H | H].
        -- right. now apply Hseq.
        -- left. split; [assumption | now apply IH2].
      * intros [[_ H] | H]; [apply MAltR; now apply IH2 | apply MAltL; now apply Hseq].
    + rewrite Hseq. split; [auto |].
      intros [[H _] | H]; [| assumption].
      apply nullable_iff in H. congruence.
  - split.
    + intros H. apply matches_alt_inv in H as [H | H];
        [apply MAltL; now apply IH1 | apply MAltR; now apply IH2].
    + intros H. apply matches_alt_inv in H as [H | H];
        [apply MAltL; now apply IH1 | apply MAltR; now apply IH2].
  - split.
    + intros H. apply matches_seq_inv in H as (s1 & s2 & -> & H1 & H2).
      change (String a (s1 +:+ s2)) with (String a s1 +:+ s2).
      constructor; [now apply IH | assumption].
    + intros H. apply matches_star_cons in H as (s1 & s2 & -> & H1 & H2).
      constructor; [now apply IH | assumption].
Qed.

(** [test] accepts exactly the language of the expression. *)
Lemma test_iff r s : test r s = true <-> matches r s.
Proof.
  revert r; induction s as [|a s IH]; intros r; simpl.
  - apply nullable_iff.
  - rewrite IH. apply deriv_iff.
Qed.

End RegexFacts.

(** ** The coordinate pattern and the shape of the specification *)

Module CoordinateFacts.
Import Regex RegexFacts.

Lemma digits1_iff s :
  digits1 s = true <-> s <> "" /\ Numeral.all_digits s = true.
Proof.
  unfold digits1. rewrite andb_true_iff, negb_true_iff.
  destruct (String.eqb_spec s ""); intuition congruence.
Qed.

Lemma all_digits_app s t :
  Numeral.all_digits (s +:+ t) = Numeral.all_digits s && Numeral.all_digits t.
Proof.
  induction s as [|c s IH]; simpl; [reflexivity |].
  now rewrite IH, andb_assoc.
Qed.

Lemma matches_digit_inv s :
  matches Digit s -> exists c, s = String c "" /\ Numeral.is_digit c = true.
Proof. intros H; inversion H; eauto. Qed.

Lemma star_digit_iff s : matches (Star Digit) s <-> Numeral.all_digits s = true.
Proof.
  split.
  - intros H. remember (Star Digit) as r eqn:Hr.
    induction H as [| | | | | | |r' s1 s2 H1 _ _ IH2]; try discriminate.
    + reflexivity.
    + injection Hr as ->. rewrite all_digits_app, IH2 by reflexivity.
      apply matches_digit_inv in H1 as (c & -> & Hc). simpl. now rewrite Hc.
  - induction s as [|c s IH]; simpl; intros H.
    + constructor.
    + apply andb_true_iff in H as [Hc Hs].
      change (String c s) with (String c "" +:+ s).
      constructor; [now constructor | auto].
Qed.

Lemma plus_digit_iff s : matches (Plus Digit) s <-> digits1 s = true.
Proof.
  rewrite digits1_iff. unfold Plus. split.
  - intros H. apply matches_seq_inv in H as (s1 & s2 & -> & H1 & H2).
    apply star_digit_iff in H2. apply matches_digit_inv in H1 as (c & -> & Hc).
    simpl. split; [discriminate | now rewrite Hc, H2].
  - intros [Hne H]. destruct s as [|c s]; [congruence |].
    simpl in H. apply andb_true_iff in H as [Hc Hs].
    change (String c s) with (String c "" +:+ s).
    constructor; [now constructor | now apply star_digit_iff].
Qed.

Lemma matches_chr_inv c s : matches (Chr c) s -> s = String c "".
Proof. intros H; inversion H; reflexivity. Qed.

Lemma matches_eps_inv s : matches Eps s -> s = "".
Proof. intros H; inversion H; reflexivity. Qed.

Lemma signedDecimal_iff s :
  matches signedDecimalRegex s <-> exists d, sd_wf d = true /\ s = sd_text d.
Proof.
  unfold signedDecimalRegex, Opt. split.
  - intros H.
    apply matches_seq_inv in H as (sg & rest & -> & Hsg & H).
    apply matches_seq_inv in H as (ip & fp & -> & Hip & Hfp).
    apply plus_digit_iff in Hip.
    assert (Hsg' : exists m : bool, sg = if m then "-" else "").
    { apply matches_alt_inv in Hsg as [Hm | He].
      - exists true. now apply matches_chr_inv.
      - exists false. now apply matches_eps_inv. }
    destruct Hsg' as [m ->].
    apply matches_alt_inv in Hfp as [Hf | He].
    + apply matches_seq_inv in Hf as (dot & f & -> & Hdot & Hf).
      apply matches_chr_inv in Hdot as ->. apply plus_digit_iff in Hf.
      exists {| sd_minus := m; sd_int := ip; sd_frac := Some f |}.
      unfold sd_wf, sd_text; simpl. now rewrite Hip, Hf.
    + apply matches_eps_inv in He as ->.
      exists {| sd_minus := m; sd_int := ip; sd_frac := None |}.
      unfold sd_wf, sd_text; simpl. now rewrite Hip.
  - intros ([m ip fp] & Hwf & ->). unfold sd_wf, sd_text in *.
    cbn [sd_minus sd_int sd_frac] in *.
    apply andb_true_iff in Hwf as [Hip Hfp].
    constructor.
    + destruct m; [apply MAltL | apply MAltR]; constructor.
    + constructor; [now apply plus_digit_iff |].
      destruct fp as [f|].
      * apply MAltL. constructor; [constructor | now apply plus_digit_iff].
      * apply MAltR. constructor.
Qed.

Lemma coordinatesRegex_iff s : matches coordinatesRegex s <-> coordinate_shape s.
Proof.
  unfold coordinatesRegex, coordinate_shape. split.
  - intros H.
    apply matches_seq_inv in H as (ta & rest & -> & Ha & H).
    apply matches_seq_inv in H as (comma & tb & -> & Hc & Hb).
    apply matches_chr_inv in Hc as ->.
    apply signedDecimal_iff in Ha as (a & Ha & ->).
    apply signedDecimal_iff in Hb as (b & Hb & ->).
    exists a, b. auto.
  - intros (a & b & Ha & Hb & ->).
    constructor; [apply signedDecimal_iff; eauto |].
    constructor; [constructor | apply signedDecimal_iff; eauto].
Qed.

(** [isValidCoordinates] accepts exactly the strings of the shape. *)
Lemma isValidCoordinates_iff s : isValidCoordinates s = true <-> coordinate_shape s.
Proof.
  unfold isValidCoordinates. rewrite test_iff. apply coordinatesRegex_iff.
Qed.

End CoordinateFacts.

(** ** Rounding to binary64 *)

Module RoundingFacts.
Import Binary64.

Lemma div_nearest_even_spec n d :
  0 <= n -> 0 < d ->
  0 <= div_nearest_even n d /\ 2 * Z.abs (n - div_nearest_even n d * d) <= d.
Proof.
  intros Hn Hd. unfold div_nearest_even.
  pose proof (Z.div_mod n d ltac:(lia)) as E.
  pose proof (Z.mod_pos_bound n d Hd) as B.
  pose proof (Z.div_pos n d Hn Hd) as P.
  destruct (Z.compare_spec (2 * (n mod d)) d) as [C|C|C];
    [destruct (Z.even (n / d)) |..]; nia.
Qed.

Lemma pow2_pos e : (0 < 2 ^ e)%Q.
Proof. now apply Qpower_0_lt. Qed.

Lemma pow2_plus a b : (2 ^ (a + b) == 2 ^ a * 2 ^ b)%Q.
Proof. now apply Qpower_plus. Qed.

Lemma pow2_Z e : 0 <= e -> (2 ^ e == inject_Z (2 ^ e))%Q.
Proof. intros H. now rewrite Zpower_Qpower. Qed.

Lemma pow2_neg e : e <= 0 -> (2 ^ e * inject_Z (2 ^ (- e)) == 1)%Q.
Proof.
  intros H. rewrite <- pow2_Z by lia. rewrite <- pow2_plus.
  now replace (e + - e) with 0 by lia.
Qed.

(** The binary logarithm is not above the quotient. *)
Lemma ilog2_lower n d :
  0 < n -> 0 < d -> (inject_Z d * 2 ^ ilog2 n d <= inject_Z n)%Q.
Proof.
  intros Hn Hd. unfold ilog2.
  set (l := Z.log2 n - Z.log2 d).
  destruct (Z.log2_spec n Hn) as [Ln _]. destruct (Z.log2_spec d Hd) as [_ Ld].
  pose proof (Z.log2_nonneg n) as Nn. pose proof (Z.log2_nonneg d) as Nd.
  destruct (if 0 <=? l then d * 2 ^ l <=? n else d <=? n * 2 ^ (- l)) eqn:T.
  - destruct (Z.leb_spec 0 l) as [Hl|Hl]; apply Z.leb_le in T.
    + rewrite pow2_Z by exact Hl. rewrite <- inject_Z_mult. now rewrite <- Zle_Qle.
    + rewrite Zle_Qle, inject_Z_mult in T.
      pose proof (pow2_neg l ltac:(lia)) as E. pose proof (pow2_pos l) as P.
      set (x := (2 ^ l)%Q) in *. set (y := inject_Z (2 ^ (- l))) in *.
      set (a := inject_Z d) in *. set (b := inject_Z n) in *.
      assert (H : (a * x <= b * y * x)%Q) by (apply Qmult_le_compat_r; [exact T | lra]).
      assert (H' : (b * y * x == b)%Q).
      { transitivity (b * (x * y))%Q; [ring | rewrite E; ring]. }
      lra.
  - (* d < 2^(b+1), 2^a <= n *)
    assert (E : (2 ^ (l - 1) * inject_Z (2 ^ (Z.log2 d + 1)) == inject_Z (2 ^ Z.log2 n))%Q).
    { rewrite <- !pow2_Z by lia. rewrite <- pow2_plus.
      now replace (l - 1 + (Z.log2 d + 1)) with (Z.log2 n) by (unfold l; lia). }
    rewrite Zle_Qle in Ln. rewrite Z.add_1_r in E. rewrite Zlt_Qlt in Ld.
    pose proof (pow2_pos (l - 1)) as P.
    set (x := (2 ^ (l - 1))%Q) in *.
    assert (H : (inject_Z d * x <= inject_Z (2 ^ Z.succ (Z.log2 d)) * x)%Q)
      by (apply Qmult_le_compat_r; lra).
    lra.
Qed.

Lemma scaled_bound (T D w r : Q) :
  (0 <= w)%Q -> (- D <= 2 * T)%Q -> (2 * T <= D)%Q -> (r == T * w)%Q ->
  (Qabs r <= D * w * (1 # 2))%Q.
Proof.
  intros Hw H1 H2 ->. apply Qabs_Qle_condition.
  assert (A : (0 <= (D - 2 * T) * w)%Q) by (apply Qmult_le_0_compat; lra).
  assert (B : (0 <= (D + 2 * T) * w)%Q) by (apply Qmult_le_0_compat; lra).
  split; lra.
Qed.

Lemma Zabs_Q (t d : Z) :
  2 * Z.abs t <= d -> (- inject_Z d <= 2 * inject_Z t)%Q /\ (2 * inject_Z t <= inject_Z d)%Q.
Proof.
  intros H.
  assert (H1 : - d <= 2 * t) by lia. assert (H2 : 2 * t <= d) by lia.
  rewrite Zle_Qle in H1, H2. rewrite inject_Z_mult in H1, H2.
  rewrite inject_Z_opp in H1. now split.
Qed.

(** Rounding at the exponent [e] is within half a unit of the last
    place. *)
Lemma round_error n d e :
  0 < n -> 0 < d ->
  let m := if e <? 0 then div_nearest_even (n * 2 ^ (- e)) d
           else div_nearest_even n (d * 2 ^ e) in
  0 <= m /\
  (Qabs (inject_Z m * 2 ^ e - inject_Z n / inject_Z d) <= 2 ^ e * (1 # 2))%Q.
Proof.
  intros Hn Hd m.
  assert (HD : (0 < inject_Z d)%Q) by (now rewrite <- (Zlt_Qlt 0)).
  pose proof (pow2_pos e) as Hx.
  subst m. destruct (Z.ltb_spec e 0) as [He|He].
  - assert (HP : 0 < 2 ^ (- e)) by (apply Z.pow_pos_nonneg; lia).
    destruct (div_nearest_even_spec (n * 2 ^ (- e)) d ltac:(nia) Hd) as [Hm Hb].
    set (m := div_nearest_even (n * 2 ^ (- e)) d) in *.
    split; [exact Hm |].
    pose proof (pow2_neg e ltac:(lia)) as E.
    replace (n * 2 ^ (- e) - m * d) with (- (m * d - n * 2 ^ (- e))) in Hb by ring.
    rewrite Z.abs_opp in Hb. apply Zabs_Q in Hb as [H1 H2].
    assert (R : (2 ^ e * (1 # 2) == inject_Z d * (2 ^ e / inject_Z d) * (1 # 2))%Q)
      by (field; lra).
    rewrite R. apply (scaled_bound (inject_Z (m * d - n * 2 ^ (- e)))); try assumption.
    + apply Qlt_le_weak. apply Qlt_shift_div_l; lra.
    + unfold Zminus. rewrite inject_Z_plus, inject_Z_opp, !inject_Z_mult.
      set (x := (2 ^ e)%Q) in *. set (p := inject_Z (2 ^ (- e))) in *.
      transitivity (inject_Z m * x - inject_Z n * (x * p) / inject_Z d)%Q;
        [rewrite E; field; lra | field; lra].
  - assert (HP : 0 < 2 ^ e) by (apply Z.pow_pos_nonneg; lia).
    destruct (div_nearest_even_spec n (d * 2 ^ e) ltac:(lia) ltac:(nia)) as [Hm Hb].
    set (m := div_nearest_even n (d * 2 ^ e)) in *.
    split; [exact Hm |].
    replace (n - m * (d * 2 ^ e)) with (- (m * (d * 2 ^ e) - n)) in Hb by ring.
    rewrite Z.abs_opp in Hb. apply Zabs_Q in Hb as [H1 H2].
    rewrite inject_Z_mult in H1, H2. rewrite <- pow2_Z in H1, H2 by exact He.
    assert (R : (2 ^ e * (1 # 2) == inject_Z d * 2 ^ e * (/ inject_Z d) * (1 # 2))%Q)
      by (field; lra).
    rewrite R. apply (scaled_bound (inject_Z (m * (d * 2 ^ e) - n))); try assumption.
    + apply Qlt_le_weak. now apply Qinv_lt_0_compat.
    + unfold Zminus. rewrite inject_Z_plus, inject_Z_opp, !inject_Z_mult.
      rewrite <- pow2_Z by exact He. field; lra.
Qed.

Lemma pow10_plus a b : (10 ^ (a + b) == 10 ^ a * 10 ^ b)%Q.
Proof. now apply Qpower_plus. Qed.

Lemma strip_zeros_value fuel m e m' e' :
  0 <= m -> strip_zeros fuel m e = (m', e') ->
  0 <= m' /\ (inject_Z m' * 10 ^ e' == inject_Z m * 10 ^ e)%Q.
Proof.
  revert m e. induction fuel as [|fuel IH]; intros m e Hm; cbn [strip_zeros].
  - intros [= <- <-]. split; [exact Hm | reflexivity].
  - destruct ((e <? 0) && (m mod 10 =? 0))%bool eqn:T.
    + apply andb_prop in T as [_ T]. apply Z.eqb_eq in T.
      intros H. apply IH in H as [H1 H2]; [| now apply Z.div_pos].
      split; [exact H1 |]. rewrite H2, pow10_plus.
      pose proof (Z.div_mod m 10 ltac:(lia)) as E. rewrite T, Z.add_0_r in E.
      rewrite E at 2. rewrite inject_Z_mult.
      change (10 ^ 1)%Q with (inject_Z 10). ring.
    + intros [= <- <-]. split; [exact Hm | reflexivity].
Qed.

(** The decimal written for [m * 2^e] has that value. *)
Lemma decimal_of_value neg m e :
  0 <= m ->
  exists mant ex, decimal_of neg m e = Decimal neg mant ex /\
                  (decimal_value mant ex == inject_Z m * 2 ^ e)%Q.
Proof.
  intros Hm. unfold decimal_of, decimal_value.
  destruct (Z.eqb_spec m 0) as [->|Hm0].
  { exists 0%N, 0. split; [reflexivity |]. cbn. ring. }
  destruct (Z.leb_spec 0 e) as [He|He].
  - eexists _, 0. split; [reflexivity |].
    rewrite Z2N.id by (apply Z.mul_nonneg_nonneg; [lia | now apply Z.pow_nonneg]).
    rewrite inject_Z_mult, <- pow2_Z by exact He.
    change (10 ^ 0)%Q with 1%Q. ring.
  - destruct (strip_zeros (Z.to_nat (- e)) (m * 5 ^ (- e)) e) as [m' e'] eqn:S.
    apply strip_zeros_value in S as [H1 H2];
      [| apply Z.mul_nonneg_nonneg; [lia | apply Z.pow_nonneg; lia]].
    exists (Z.to_N m'), e'. split; [reflexivity |].
    rewrite Z2N.id by exact H1. rewrite H2, inject_Z_mult.
    rewrite Zpower_Qpower by lia.
    assert (E10 : (10 ^ e == inject_Z 5 ^ e * 2 ^ e)%Q).
    { change 10%Q with (inject_Z 5 * 2)%Q. apply Qmult_power. }
    rewrite E10.
    assert (E5 : (inject_Z 5 ^ (- e) * inject_Z 5 ^ e == 1)%Q).
    { rewrite <- Qpower_plus by discriminate.
      now replace (- e + e) with 0 by lia. }
    transitivity (inject_Z m * (inject_Z 5 ^ (- e) * inject_Z 5 ^ e) * 2 ^ e)%Q;
      [ring | rewrite E5; ring].
Qed.

(** The significand and the exponent [nearest] settles on: within half a
    unit of the last place of the quotient, which is at most the relative
    error [2^-53] for a normal number and [2^-1075] for a subnormal one;
    none only from [2^1023] on. *)
Lemma nearest_spec n d :
  0 < n -> 0 < d ->
  match nearest n d with
  | Some (m, e) =>
      0 <= m /\
      (Qabs (inject_Z m * 2 ^ e - inject_Z n / inject_Z d)
       <= inject_Z n / inject_Z d * 2 ^ (-53) + 2 ^ (-1075))%Q
  | None => (2 ^ 1023 <= inject_Z n / inject_Z d)%Q
  end.
Proof.
  intros Hn Hd. unfold nearest.
  assert (HD : (0 < inject_Z d)%Q) by (now rewrite <- (Zlt_Qlt 0)).
  pose proof (ilog2_lower n d Hn Hd) as Hl.
  assert (Hq : (2 ^ ilog2 n d <= inject_Z n / inject_Z d)%Q).
  { apply Qle_shift_div_l; [exact HD |]. now rewrite Qmult_comm. }
  set (q := (inject_Z n / inject_Z d)%Q) in *.
  set (l := ilog2 n d) in *.
  set (e := Z.max (l - 52) (-1074)).
  destruct (round_error n d e Hn Hd) as [Hm Herr]. fold q in Herr.
  set (m := if e <? 0 then div_nearest_even (n * 2 ^ (- e)) d
            else div_nearest_even n (d * 2 ^ e)) in *.
  assert (Hulp : (2 ^ e * (1 # 2) <= q * 2 ^ (-53) + 2 ^ (-1075))%Q).
  { pose proof (pow2_pos (-53)) as P53. pose proof (pow2_pos (-1075)) as P1075.
    assert (Hq0 : (0 < q)%Q) by (pose proof (pow2_pos l); lra).
    assert (Hh : (2 ^ e * (1 # 2) == 2 ^ (e - 1))%Q).
    { unfold Zminus. rewrite pow2_plus. reflexivity. }
    rewrite Hh. destruct (Z.max_spec (l - 52) (-1074)) as [[_ E]|[_ E]]; fold e in E.
    - rewrite E. change (-1074 - 1) with (-1075).
      assert (0 <= q * 2 ^ (-53))%Q by (apply Qmult_le_0_compat; lra). lra.
    - rewrite E. replace (l - 52 - 1) with (l + -53) by lia. rewrite pow2_plus.
      assert (2 ^ l * 2 ^ (-53) <= q * 2 ^ (-53))%Q
        by (apply Qmult_le_compat_r; lra).
      lra. }
  destruct (Z.eqb_spec m (2 ^ 53)) as [E53|_].
  - destruct (Z.ltb_spec 971 (e + 1)) as [Ho|_].
    + assert (1023 <= l) by lia.
      apply Qle_trans with (2 ^ l)%Q; [| exact Hq].
      apply Qpower_le_compat_l; [assumption | lra].
    + split; [apply Z.pow_nonneg; lia |].
      assert (Ev : (inject_Z (2 ^ 52) * 2 ^ (e + 1) == inject_Z m * 2 ^ e)%Q).
      { rewrite E53, <- !pow2_Z by lia. rewrite <- !pow2_plus.
        now replace (52 + (e + 1)) with (53 + e) by lia. }
      rewrite Ev. lra.
  - destruct (Z.ltb_spec 971 e) as [Ho|_].
    + assert (1023 <= l) by lia.
      apply Qle_trans with (2 ^ l)%Q; [| exact Hq].
      apply Qpower_le_compat_l; [assumption | lra].
    + split; [exact Hm | lra].
Qed.

(** The Number [of_Q] gives for a magnitude [q] is [q] rounded. *)
Lemma of_Q_spec neg q : (0 <= q)%Q -> rounds_to neg q (of_Q neg q).
Proof.
  intros Hq. unfold rounds_to, of_Q.
  pose proof (Qred_correct q) as Er. destruct (Qred q) as [n d]. cbn [Qnum Qden].
  pose proof (pow2_pos (-53)) as P53. pose proof (pow2_pos (-1075)) as P1075.
  destruct (Z.leb_spec n 0) as [Hn|Hn].
  - split; [reflexivity |]. unfold decimal_value.
    assert (E0 : (q == 0)%Q).
    { rewrite <- Er in Hq |- *. unfold Qle in Hq. cbn in Hq.
      unfold Qeq; cbn. lia. }
    assert (Ez : (inject_Z (Z.of_N 0) * 10 ^ 0 - q == 0)%Q)
      by (rewrite E0; vm_compute; reflexivity).
    rewrite Ez, E0. change (Qabs 0) with 0%Q. lra.
  - assert (Eq : (inject_Z n / inject_Z (Z.pos d) == q)%Q).
    { rewrite <- Er. rewrite (Qmake_Qdiv n d). reflexivity. }
    pose proof (nearest_spec n (Z.pos d) Hn eq_refl) as H.
    destruct (nearest n (Z.pos d)) as [[m e]|].
    + destruct H as [Hm H].
      destruct (decimal_of_value neg m e Hm) as (mant & ex & -> & Ev).
      split; [reflexivity |]. rewrite Ev. now rewrite Eq in H.
    + split; [reflexivity |]. now rewrite Eq in H.
Qed.

End RoundingFacts.

(** ** Reading the two numbers *)

Module ParseFacts.
Import Numeral CoordinateFacts.

Lemma digit_class c :
  is_digit c = true ->
  JsString.is_space c = false /\ Ascii.eqb c "," = false /\
  Ascii.eqb c "-" = false /\ Ascii.eqb c "+" = false /\
  Ascii.eqb "I" c = false /\ Ascii.eqb c "." = false /\
  Ascii.eqb c "e" = false /\ Ascii.eqb c "E" = false.
Proof.
  char_cases c H; repeat split; reflexivity.
Qed.

Lemma sd_char_class c :
  sd_char c = true -> JsString.is_space c = false /\ Ascii.eqb c "," = false.
Proof.
  char_cases c H; split; reflexivity.
Qed.

Lemma sd_char_no_space_byte c : sd_char c = true -> space_byte c = false.
Proof. char_cases c H; reflexivity. Qed.

(** A first byte that belongs to no white space code point. *)
Lemma space_head_solid c r : space_byte c = false -> JsString.space_head (String c r) = None.
Proof.
  char_cases c H; destruct r as [|c2 [|c3 r]]; reflexivity.
Qed.

Lemma trimStart_solid c r :
  space_byte c = false -> JsString.trimStart (String c r) = String c r.
Proof.
  char_cases c H; destruct r as [|c2 [|c3 r]]; reflexivity.
Qed.

Lemma is_blank_solid c r : space_byte c = false -> JsString.is_blank (String c r) = false.
Proof.
  char_cases c H; destruct r as [|c2 [|c3 r]]; reflexivity.
Qed.

Lemma all_chars_app p s t :
  all_chars p (s +:+ t) = all_chars p s && all_chars p t.
Proof.
  induction s as [|c s IH]; simpl; [reflexivity | now rewrite IH, andb_assoc].
Qed.

Lemma all_chars_weaken (p q : ascii -> bool) s :
  (forall c, p c = true -> q c = true) ->
  all_chars p s = true -> all_chars q s = true.
Proof.
  intros Hpq. induction s as [|c s IH]; simpl; [reflexivity |].
  rewrite !andb_true_iff. intros [Hc Hs]. auto.
Qed.

Lemma all_digits_chars s : all_digits s = all_chars is_digit s.
Proof. induction s as [|c s IH]; simpl; [reflexivity | now rewrite IH]. Qed.

Lemma digits_sd_chars s : all_digits s = true -> all_chars sd_char s = true.
Proof.
  rewrite all_digits_chars. apply all_chars_weaken.
  intros c Hc. unfold sd_char. now rewrite Hc.
Qed.

Lemma sd_text_chars d : sd_wf d = true -> all_chars sd_char (sd_text d) = true.
Proof.
  destruct d as [m ip fp]. unfold sd_wf, sd_text. cbn [sd_minus sd_int sd_frac].
  rewrite andb_true_iff, digits1_iff. intros [[_ Hip] Hfp].
  rewrite !all_chars_app, (digits_sd_chars _ Hip).
  assert (Hm : all_chars sd_char (if m then "-" else "") = true) by now destruct m.
  rewrite Hm. destruct fp as [f|]; [| reflexivity].
  apply digits1_iff in Hfp as [_ Hf]. simpl.
  now rewrite (digits_sd_chars _ Hf).
Qed.

Lemma trimStart_id s :
  all_chars (fun c => negb (space_byte c)) s = true -> JsString.trimStart s = s.
Proof.
  destruct s as [|c s]; [reflexivity |]. cbn [all_chars].
  rewrite andb_true_iff, negb_true_iff. intros [Hc _]. now apply trimStart_solid.
Qed.

Lemma trimEnd_id s :
  all_chars (fun c => negb (space_byte c)) s = true -> JsString.trimEnd s = s.
Proof.
  induction s as [|c s IH]; [reflexivity |]. cbn [all_chars].
  rewrite andb_true_iff, negb_true_iff. intros [Hc Hs].
  cbn [JsString.trimEnd]. now rewrite (is_blank_solid c s Hc), (IH Hs).
Qed.

Lemma trim_id s :
  all_chars (fun c => negb (space_byte c)) s = true -> JsString.trim s = s.
Proof.
  intros H. unfold JsString.trim. rewrite (trimStart_id _ H). now apply trimEnd_id.
Qed.

Lemma split_no_sep sep s :
  all_chars (fun c => negb (Ascii.eqb c sep)) s = true -> JsString.split sep s = [s].
Proof.
  induction s as [|c s IH]; simpl; [reflexivity |].
  rewrite andb_true_iff, negb_true_iff. intros [Hc Hs].
  now rewrite Hc, (IH Hs).
Qed.

Lemma split_app sep s t :
  all_chars (fun c => negb (Ascii.eqb c sep)) s = true ->
  JsString.split sep (s +:+ String sep t) = s :: JsString.split sep t.
Proof.
  induction s as [|c s IH]; simpl.
  - intros _. now rewrite Ascii.eqb_refl.
  - rewrite andb_true_iff, negb_true_iff. intros [Hc Hs].
    now rewrite Hc, (IH Hs).
Qed.


Lemma sd_text_no_space_byte d :
  sd_wf d = true ->
  all_chars (fun c => negb (space_byte c)) (sd_text d) = true.
Proof.
  intros H. apply (all_chars_weaken sd_char); [| now apply sd_text_chars].
  intros c Hc. now rewrite (sd_char_no_space_byte c Hc).
Qed.

Lemma sd_text_no_comma d :
  sd_wf d = true ->
  all_chars (fun c => negb (Ascii.eqb c ",")) (sd_text d) = true.
Proof.
  intros H. apply (all_chars_weaken sd_char); [| now apply sd_text_chars].
  intros c Hc. apply sd_char_class in Hc as [_ ->]. reflexivity.
Qed.

(** Splitting a string of the shape at the comma gives back the two
    numerals. *)
Lemma split_shape a b :
  sd_wf a = true -> sd_wf b = true ->
  JsString.split "," (sd_text a +:+ "," +:+ sd_text b) = [sd_text a; sd_text b].
Proof.
  intros Ha Hb. change ("," +:+ sd_text b) with (String "," (sd_text b)).
  rewrite (split_app _ _ _ (sd_text_no_comma a Ha)).
  now rewrite (split_no_sep _ _ (sd_text_no_comma b Hb)).
Qed.

Lemma span_digits_app s r :
  all_digits s = true ->
  match r with String c _ => is_digit c = false | EmptyString => True end ->
  span_digits (s +:+ r) = (s, r).
Proof.
  intros Hs Hr. induction s as [|c s IH]; simpl.
  - destruct r as [|c r]; simpl; [reflexivity | now rewrite Hr].
  - simpl in Hs. apply andb_true_iff in Hs as [Hc Hs].
    now rewrite Hc, (IH Hs).
Qed.

Lemma read_sign_digit c s :
  is_digit c = true -> read_sign (String c s) = (false, String c s).
Proof.
  char_cases c H; reflexivity.
Qed.

Lemma startsWith_Infinity_digit c s :
  is_digit c = true -> JsString.startsWith (String c s) "Infinity" = false.
Proof.
  char_cases c H; reflexivity.
Qed.

Lemma length_append s t :
  String.length (s +:+ t) = (String.length s + String.length t)%nat.
Proof. induction s as [|c s IH]; simpl; [reflexivity | now rewrite IH]. Qed.

Lemma digits_value_app s t :
  digits_value (s +:+ t) =
  digits_value s * 10 ^ Z.of_nat (String.length t) + digits_value t.
Proof.
  induction s as [|c s IH]; simpl; [lia |].
  rewrite IH, length_append, Nat2Z.inj_add, Z.pow_add_r by lia. ring.
Qed.

Lemma digits_N_value acc s :
  Z.of_N (digits_N acc s) =
  Z.of_N acc * 10 ^ Z.of_nat (String.length s) + digits_value s.
Proof.
  revert acc; induction s as [|c s IH]; intros acc.
  - simpl. lia.
  - cbn [digits_N digits_value String.length]. rewrite IH.
    rewrite Nat2Z.inj_succ, Z.pow_succ_r by lia.
    rewrite N2Z.inj_add, N2Z.inj_mul. change (Z.of_N 10) with 10. ring.
Qed.

(** The digits read, scaled by the length of the decimal part, have the
    magnitude the signed decimal denotes. *)
Lemma magnitude_of_digits ip frac :
  (inject_Z (Z.of_N (digits_N 0 (ip +:+ frac))) *
   Qpower (inject_Z 10) (0 - Z.of_nat (String.length frac)) ==
   inject_Z (digits_value ip) +
   inject_Z (digits_value frac) / inject_Z (10 ^ Z.of_nat (String.length frac)))%Q.
Proof.
  rewrite digits_N_value. change (Z.of_N 0) with 0. rewrite Z.mul_0_l, Z.add_0_l.
  rewrite digits_value_app, Z.sub_0_l, Qpower_opp.
  rewrite <- Zpower_Qpower by lia.
  rewrite inject_Z_plus, inject_Z_mult.
  assert (Hp : ~ (inject_Z (10 ^ Z.of_nat (String.length frac)) == 0)%Q).
  { intros H.
    assert (0 < 10 ^ Z.of_nat (String.length frac)) by (apply Z.pow_pos_nonneg; lia).
    unfold Qeq in H. simpl in H. lia. }
  field; exact Hp.
Qed.

(** Rounding depends on the value only, not on how the fraction is
    written. *)
Lemma of_Q_proper neg (q1 q2 : Q) :
  (q1 == q2)%Q -> Binary64.of_Q neg q1 = Binary64.of_Q neg q2.
Proof. intros H. unfold Binary64.of_Q. now rewrite (Qred_complete _ _ H). Qed.


(** [parseFloat] on an unsigned numeral. *)
Lemma parseFloat_unsigned_tail neg ip fp :
  digits1 ip = true ->
  match fp with Some f => digits1 f = true | None => True end ->
  (let '(ip', r1) := span_digits (ip +:+ match fp with None => "" | Some f => "." +:+ f end) in
   let '(fp', r2) :=
     match r1 with
     | String "."%char r1' => span_digits r1'
     | _ => (EmptyString, r1)
     end in
   match ip' +:+ fp' with
   | EmptyString => NaN
   | ds => Binary64.of_Q neg
             (inject_Z (Z.of_N (digits_N 0 ds)) *
              Qpower (inject_Z 10) (read_exponent r2 - Z.of_nat (String.length fp')))%Q
   end)
  = sd_number {| sd_minus := neg; sd_int := ip; sd_frac := fp |}.
Proof.
  intros Hip Hfp. apply digits1_iff in Hip as [Hne Hip].
  unfold sd_number, sd_magnitude; cbn [sd_minus sd_int sd_frac].
  destruct fp as [f|].
  - apply digits1_iff in Hfp as [Hfne Hf].
    rewrite (span_digits_app ip ("." +:+ f) Hip) by reflexivity.
    change ("." +:+ f) with (String "." f). cbv iota beta.
    rewrite <- (append_nil_r f) at 1.
    rewrite (span_digits_app f "" Hf I).
    rewrite <- (of_Q_proper neg _ _ (magnitude_of_digits ip f)).
    destruct ip as [|c ip]; [congruence |]. reflexivity.
  - rewrite (span_digits_app ip "" Hip I). cbv iota beta.
    rewrite <- (of_Q_proper neg _ _ (magnitude_of_digits ip "")).
    destruct ip as [|c ip]; [congruence |]. reflexivity.
Qed.

Lemma digits_value_nonneg s : 0 <= digits_value s.
Proof.
  induction s as [|c s IH]; cbn [digits_value]; [lia |].
  assert (0 <= 10 ^ Z.of_nat (String.length s)) by (apply Z.pow_nonneg; lia).
  nia.
Qed.

Lemma sd_magnitude_nonneg d : (0 <= sd_magnitude d)%Q.
Proof.
  unfold sd_magnitude.
  set (frac := match sd_frac d with None => "" | Some f => f end).
  pose proof (digits_value_nonneg (sd_int d)) as Hi.
  pose proof (digits_value_nonneg frac) as Hf.
  assert (Hp : 0 < 10 ^ Z.of_nat (String.length frac)) by (apply Z.pow_pos_nonneg; lia).
  rewrite Zle_Qle in Hi, Hf. rewrite Zlt_Qlt in Hp.
  change (inject_Z 0) with 0%Q in Hi, Hf, Hp.
  assert (0 <= inject_Z (digits_value frac) /
               inject_Z (10 ^ Z.of_nat (String.length frac)))%Q
    by (apply Qle_shift_div_l; [exact Hp | lra]).
  lra.
Qed.

Lemma parseFloat_sd d : sd_wf d = true -> parseFloat (sd_text d) = sd_number d.
Proof.
  intros Hwf. unfold parseFloat.
  rewrite (trimStart_id _ (sd_text_no_space_byte d Hwf)).
  destruct d as [m ip fp]. unfold sd_wf, sd_text in *. cbn [sd_minus sd_int sd_frac] in *.
  apply andb_true_iff in Hwf as [Hip Hfp].
  assert (Hfp' : match fp with Some f => digits1 f = true | None => True end)
    by (destruct fp; auto).
  pose proof (parseFloat_unsigned_tail m ip fp Hip Hfp') as Htail.
  assert (Hsign : read_sign ((if m then "-" else "") +:+ ip +:+
                    match fp with None => "" | Some f => "." +:+ f end)
                  = (m, ip +:+ match fp with None => "" | Some f => "." +:+ f end)).
  { destruct m; [reflexivity |].
    apply digits1_iff in Hip as [Hne Hip]. destruct ip as [|c ip]; [congruence |].
    simpl in Hip. apply andb_true_iff in Hip as [Hc _].
    apply (read_sign_digit c). exact Hc. }
  rewrite Hsign.
  assert (Hinf : JsString.startsWith
                   (ip +:+ match fp with None => "" | Some f => "." +:+ f end)
                   "Infinity" = false).
  { apply digits1_iff in Hip as [Hne Hip]. destruct ip as [|c ip]; [congruence |].
    simpl in Hip. apply andb_true_iff in Hip as [Hc _].
    apply (startsWith_Infinity_digit c). exact Hc. }
  rewrite Hinf. exact Htail.
Qed.

End ParseFacts.

(** ** The Coordinate Parser *)

(** C3, as the code has it.  A string ["{decimal},{decimal}"] (optional
    minus sign, optional decimal part, no white space anywhere) is accepted
    and parsed into the two Numbers its numerals denote: the binary64 values
    nearest to them, hence within the relative error [2^-53] of them, an
    infinity beyond the range.  A string of any other
    shape, a numeral with a plus sign included, gives none.  The values are
    not range-checked, so ["999,999"] is accepted although 999 is neither a
    latitude nor a longitude. *)
Theorem coordinate_parser_spec (a b : SignedDecimal) (s : string) :
  (sd_wf a = true -> sd_wf b = true ->
   isValidCoordinates (sd_text a +:+ "," +:+ sd_text b) = true /\
   parseCoordinates (sd_text a +:+ "," +:+ sd_text b) =
     Some (JNum (Binary64.of_Q (sd_minus a) (sd_magnitude a)),
           JNum (Binary64.of_Q (sd_minus b) (sd_magnitude b))) /\
   rounds_to (sd_minus a) (sd_magnitude a)
     (Binary64.of_Q (sd_minus a) (sd_magnitude a)) /\
   rounds_to (sd_minus b) (sd_magnitude b)
     (Binary64.of_Q (sd_minus b) (sd_magnitude b))) /\
  (~ coordinate_shape s -> isValidCoordinates s = false /\ parseCoordinates s = None) /\
  (isValidCoordinates s = true <-> coordinate_shape s) /\
  parseCoordinates "999,999" =
    Some (JNum (Decimal false 999 0), JNum (Decimal false 999 0)) /\
  parseCoordinates "40.5,-74.25" =
    Some (JNum (Decimal false 405 (-1)), JNum (Decimal true 7425 (-2))) /\
  parseCoordinates "9007199254740993,-0" =
    Some (JNum (Decimal false 9007199254740992 0), JNum (Decimal true 0 0)) /\
  parseCoordinates ("1" +:+ zeros 309 +:+ ",0.1") =
    Some (JNum (Infinity false),
          JNum (Decimal false 1000000000000000055511151231257827021181583404541015625
                        (-55))) /\
  parseCoordinates "+1,2" = None /\
  parseCoordinates "40.7, -74.0" = None /\
  parseCoordinates " 40.7,-74.0" = None /\
  parseCoordinates "40.7 -74.0" = None /\
  parseCoordinates "north,west" = None.
Proof.
  split; [| split; [| split; [| repeat split; vm_compute; reflexivity]]].
  - intros Ha Hb.
    assert (Hv : isValidCoordinates (sd_text a +:+ "," +:+ sd_text b) = true).
    { apply CoordinateFacts.isValidCoordinates_iff. exists a, b. auto. }
    split; [exact Hv |].
    unfold parseCoordinates. rewrite Hv. unfold splitCoordinates.
    rewrite (ParseFacts.split_shape a b Ha Hb). cbn [map destructure2].
    rewrite !ParseFacts.trim_id by now apply ParseFacts.sd_text_no_space_byte.
    rewrite !ParseFacts.parseFloat_sd by assumption.
    split; [reflexivity |].
    split; apply RoundingFacts.of_Q_spec, ParseFacts.sd_magnitude_nonneg.
  - intros Hs.
    assert (Hv : isValidCoordinates s = false).
    { destruct (isValidCoordinates s) eqn:E; [| reflexivity].
      apply CoordinateFacts.isValidCoordinates_iff in E. contradiction. }
    split; [exact Hv |]. unfold parseCoordinates. now rewrite Hv.
  - apply CoordinateFacts.isValidCoordinates_iff.
Qed.

Lemma coordinate_parser_spec_witness :
  let a := {| sd_minus := false; sd_int := "40"; sd_frac := Some "5" |} in
  let b := {| sd_minus := true; sd_int := "74"; sd_frac := Some "25" |} in
  sd_wf a = true /\ sd_wf b = true /\
  isValidCoordinates "40.5,-74.25" = true /\
  parseCoordinates "40.5,-74.25" =
    Some (JNum (Binary64.of_Q false (sd_magnitude a)),
          JNum (Binary64.of_Q true (sd_magnitude b))).
Proof.
  intros a b.
  split; [reflexivity |]. split; [reflexivity |].
  destruct (proj1 (coordinate_parser_spec a b "") eq_refl eq_refl) as (H1 & H2 & _).
  exact (conj H1 H2).
Defined.

(** C3, as the specification words it, fails: a numeral with a plus sign
    has an optional sign and digits, [parseFloat] reads it as a number, and
    the parser gives none for it.  Nor is the value of an accepted numeral
    always kept exactly: 9007199254740993 is read as 9007199254740992. *)
Lemma plus_sign_is_rejected :
  optional_sign "+" /\ optional_sign "" /\
  digits1 "1" = true /\ digits1 "2" = true /\
  Numeral.parseFloat ("+" +:+ "1") = Decimal false 1 0 /\
  parseCoordinates ("+" +:+ "1" +:+ "," +:+ "" +:+ "2") = None /\
  parseCoordinates "9007199254740993,2" =
    Some (JNum (Decimal false 9007199254740992 0), JNum (Decimal false 2 0)).
Proof.
  unfold optional_sign. repeat split; auto; vm_compute; reflexivity.
Qed.

(** ** The Location-Intent Classifier *)

Lemma toLowerCase_idem s :
  JsString.toLowerCase (JsString.toLowerCase s) = JsString.toLowerCase s.
Proof.
  induction s as [|c s IH]; simpl; [reflexivity |]. rewrite IH. f_equal.
  destruct c as [[] [] [] [] [] [] [] []]; reflexivity.
Qed.

(** C4. The classifier answers true exactly when the lowercased text
    contains one of the six keywords as a substring, without regard to word
    boundaries (["placement"] matches) or to letter case; it is a function of
    its argument alone. *)
Theorem location_intent_classifier_spec (s t : string) :
  locationKeywords = ["nearby"; "close to"; "around"; "location"; "near"; "place"] /\
  (checkIfLocationBased s = true <->
   exists kw, In kw locationKeywords /\ substring_of kw (JsString.toLowerCase s)) /\
  (JsString.toLowerCase s = JsString.toLowerCase t ->
   checkIfLocationBased s = checkIfLocationBased t) /\
  checkIfLocationBased (JsString.toLowerCase s) = checkIfLocationBased s /\
  checkIfLocationBased "Where is a good place to eat" = true /\
  checkIfLocationBased "What is the capital of France" = false /\
  checkIfLocationBased "placement" = true /\
  checkIfLocationBased "PIZZA NEARBY" = true.
Proof.
  split; [reflexivity |]. split; [| split; [| split; [| repeat split; reflexivity]]].
  - unfold checkIfLocationBased. rewrite existsb_exists. split.
    + intros (kw & Hin & H). exists kw. split; [exact Hin | now apply includes_iff].
    + intros (kw & Hin & H). exists kw. split; [exact Hin | now apply includes_iff].
  - intros H. unfold checkIfLocationBased. now rewrite H.
  - unfold checkIfLocationBased. now rewrite toLowerCase_idem.
Qed.

Lemma location_intent_classifier_spec_witness :
  JsString.toLowerCase "Pizza NEAR me" = JsString.toLowerCase "pizza near ME" /\
  checkIfLocationBased "Pizza NEAR me" = checkIfLocationBased "pizza near ME".
Proof.
  split; [reflexivity |].
  apply (proj1 (proj2 (proj2
    (location_intent_classifier_spec "Pizza NEAR me" "pizza near ME")))).
  reflexivity.
Defined.

(** ** Laws of the effect monad *)

Section MonadLaws.
Context {S A B : Type}.

Lemma bind_ret (a : A) (k : A -> M S B) (s : S) : bind (ret a) k s = k a s.
Proof. unfold bind, ret. now destruct (k a s) as [[r s'] ev]. Qed.

Lemma bind_read (k : S -> M S B) (s : S) : bind read k s = k s s.
Proof. unfold bind, read. now destruct (k s s) as [[r s'] ev]. Qed.

Lemma bind_write (s' : S) (k : unit -> M S B) (s : S) :
  bind (write s') k s = k tt s'.
Proof. unfold bind, write. now destruct (k tt s') as [[r s''] ev]. Qed.

Lemma bind_lift_ok (a : A) (k : A -> M S B) (s : S) : bind (lift (Ok a)) k s = k a s.
Proof. unfold bind, lift. now destruct (k a s) as [[r s'] ev]. Qed.

Lemma bind_lift_throw (e : exn) (k : A -> M S B) (s : S) :
  bind (lift (Throw e)) k s = (Throw e, s, []).
Proof. reflexivity. Qed.

Lemma bind_throw (e : exn) (k : A -> M S B) (s : S) :
  bind (throw e) k s = (Throw e, s, []).
Proof. reflexivity. Qed.

Lemma bind_emit (e : event) (k : unit -> M S B) (s : S) :
  bind (emit e) k s =
  (result_of (k tt s), store_of (k tt s), e :: events_of (k tt s)).
Proof. unfold bind, emit. now destruct (k tt s) as [[r s'] ev]. Qed.

Lemma bind_run (m : M S A) (k : A -> M S B) (s s1 : S) (a : A) (ev1 : list event) :
  m s = (Ok a, s1, ev1) ->
  bind m k s = (result_of (k a s1), store_of (k a s1), ev1 ++ events_of (k a s1)).
Proof. intros H. unfold bind. rewrite H. now destruct (k a s1) as [[r s'] ev]. Qed.

Lemma bind_run_throw (m : M S A) (k : A -> M S B) (s s1 : S) (e : exn)
    (ev1 : list event) :
  m s = (Throw e, s1, ev1) -> bind m k s = (Throw e, s1, ev1).
Proof. intros H. unfold bind. now rewrite H. Qed.

End MonadLaws.

Lemma triple_eta {S A} (x : outcome A * S * list event) :
  (result_of x, store_of x, events_of x) = x.
Proof. now destruct x as [[r s] ev]. Qed.

Lemma sendMessage_run {S} (env : Env) (chatId : Z) (text : string) (s : S) :
  sendMessage env chatId text s =
  (match telegram_post env chatId text with None => Ok tt | Some e => Throw e end,
   s, [TelegramSend chatId text]).
Proof.
  unfold sendMessage. rewrite bind_emit.
  now destruct (telegram_post env chatId text).
Qed.

Lemma bind_sendMessage {S B} (env : Env) (chatId : Z) (text : string)
    (k : unit -> M S B) (s : S) :
  bind (sendMessage env chatId text) k s =
  match telegram_post env chatId text with
  | None => (result_of (k tt s), store_of (k tt s),
             TelegramSend chatId text :: events_of (k tt s))
  | Some e => (Throw e, s, [TelegramSend chatId text])
  end.
Proof.
  unfold bind at 1. rewrite sendMessage_run.
  destruct (telegram_post env chatId text); [reflexivity |].
  now destruct (k tt s) as [[r s'] ev].
Qed.

(** ** [index.mjs]: the collaborators *)

Module IndexFacts.
Import Index.

Lemma getChatGPTResponse_run env userQuery (st : Store) :
  getChatGPTResponse env userQuery st =
  (summarizerAnswer env userQuery, st, [ChatCompletion (summarizerExchange userQuery)]).
Proof.
  unfold getChatGPTResponse, completions_create, summarizerAnswer.
  change {| req_model := "gpt-3.5-turbo";
            req_messages := [("system", systemInstruction); ("user", userQuery)];
            req_max_tokens := 150 |} with (summarizerExchange userQuery).
  unfold bind, emit, lift, ret.
  destruct (openai_create env (summarizerExchange userQuery)) as [response|e];
    [| reflexivity].
  now destruct (first_choice_text response).
Qed.

Lemma getSuggestionsFromGPT3_run env places (st : Store) :
  getSuggestionsFromGPT3 env places st =
  match array_map (fun place => Js.get place "name") places with
  | Throw e => (Throw e, st, [])
  | Ok names =>
      (summarizerAnswer env (placesPrompt env names), st,
       [ChatCompletion (summarizerExchange (placesPrompt env names))])
  end.
Proof.
  unfold getSuggestionsFromGPT3.
  destruct (array_map _ places) as [names|e]; [| reflexivity].
  rewrite bind_lift_ok. unfold completions_create, summarizerAnswer.
  change {| req_model := "gpt-3.5-turbo";
            req_messages := [("system", systemInstruction);
                             ("user", placesPrompt env names)];
            req_max_tokens := 150 |} with (summarizerExchange (placesPrompt env names)).
  unfold bind, emit, lift, ret.
  destruct (openai_create env _) as [response|e]; [| reflexivity].
  now destruct (first_choice_text response).
Qed.

Lemma getSuggestionsFromGPT3_store env places (st : Store) :
  store_of (getSuggestionsFromGPT3 env places st) = st.
Proof.
  rewrite getSuggestionsFromGPT3_run. now destruct (array_map _ places).
Qed.

Lemma getSuggestionsFromGPT3_silent env places (st : Store) :
  existsb is_reply (events_of (getSuggestionsFromGPT3 env places st)) = false.
Proof.
  rewrite getSuggestionsFromGPT3_run. now destruct (array_map _ places).
Qed.

(** What [getNearbyPlaces] returns for a reply of the provider. *)
Lemma getNearbyPlaces_run env latitude longitude query (st : Store) :
  let req := {| req_ll := (latitude, longitude);
                req_radius := 5000;
                req_query := JStr query |} in
  getNearbyPlaces env latitude longitude query st =
  (Ok match foursquare_get env req with
      | JsonBody data =>
          match Js.get data "results" with
          | Ok results =>
              if Js.truthy data && Js.truthy results then results else JArr []
          | Throw _ => JArr []
          end
      | _ => JArr []
      end, st, [PlacesSearch req]).
Proof.
  intros req. unfold getNearbyPlaces, try_catch. fold req.
  rewrite bind_emit.
  destruct (foursquare_get env req) as [| |data]; try reflexivity.
  destruct (Js.truthy data) eqn:Ht.
  - destruct (Js.get data "results") as [results|e] eqn:Hg.
    + rewrite bind_lift_ok. now destruct (Js.truthy results).
    + destruct data; discriminate.
  - destruct data; try discriminate Ht; try reflexivity;
      simpl; now rewrite ?andb_false_l.
Qed.

Lemma handleLocation_run env chatId latitude longitude query (st : Store) places :
  result_of (getNearbyPlaces env latitude longitude query st) = Ok places ->
  let req := {| req_ll := (latitude, longitude);
                req_radius := 5000;
                req_query := JStr query |} in
  handleLocation env chatId latitude longitude query st =
  match noPlaces places with
  | Throw e => (Throw e, st, [PlacesSearch req])
  | Ok true =>
      (match telegram_post env chatId (notFound query) with
       | None => Ok tt
       | Some e => Throw e
       end, st, [PlacesSearch req; TelegramSend chatId (notFound query)])
  | Ok false =>
      match getSuggestionsFromGPT3 env places st with
      | (Throw e, _, evs) => (Throw e, st, PlacesSearch req :: evs)
      | (Ok suggestions, _, evs) =>
          match telegram_post env chatId suggestions with
          | None =>
              (Ok tt, <[chatId := idle]> st,
               PlacesSearch req :: evs ++ [TelegramSend chatId suggestions])
          | Some e =>
              (Throw e, st,
               PlacesSearch req :: evs ++ [TelegramSend chatId suggestions])
          end
      end
  end.
Proof.
  intros Hp req. unfold handleLocation.
  pose proof (getNearbyPlaces_run env latitude longitude query st) as Hrun.
  cbv zeta in Hrun. fold req in Hrun. rewrite Hrun in Hp. unfold result_of in Hp.
  simpl in Hp. rewrite Hp in Hrun.
  rewrite (bind_run _ _ _ _ _ _ Hrun).
  destruct (noPlaces places) as [[|]|e].
  - rewrite bind_lift_ok, sendMessage_run. reflexivity.
  - rewrite bind_lift_ok.
    pose proof (getSuggestionsFromGPT3_store env places st) as Hst.
    destruct (getSuggestionsFromGPT3 env places st) as [[[suggestions|e] s'] evs] eqn:HG;
      unfold store_of in Hst; simpl in Hst; subst s'.
    + rewrite (bind_run _ _ _ _ _ _ HG).
      rewrite bind_sendMessage. unfold setState. rewrite bind_read.
      now destruct (telegram_post env chatId suggestions).
    + rewrite (bind_run_throw _ _ _ _ _ _ HG). reflexivity.
  - reflexivity.
Qed.

End IndexFacts.

(** ** [index.mjs]: the Dispatcher, rule by rule *)

Module DispatchFacts.
Import Index IndexFacts.

(** Rule 1: [/start]. *)
Lemma handleMessage_start env message (st : Store) :
  msg_text message = Some "/start" ->
  handleMessage env message st =
  (sent env (msg_chat_id message) greeting,
   <[msg_chat_id message := idle]> st,
   [TelegramSend (msg_chat_id message) greeting]).
Proof.
  intros H. unfold handleMessage. rewrite decide_True by exact H.
  unfold setState. unfold bind at 1. rewrite bind_read. unfold write.
  rewrite sendMessage_run. reflexivity.
Qed.

(** Rule 2: a location payload, or a text the Coordinate Parser accepts. *)
Lemma handleMessage_coordinates env message (st : Store) latitude longitude :
  msg_text message <> Some "/start" ->
  coordinatesOf message = Some (latitude, longitude) ->
  handleMessage env message st =
  if isAwaiting st (msg_chat_id message) then
    handleLocation env (msg_chat_id message) latitude longitude
      (storedQuery st (msg_chat_id message)) st
  else
    (sent env (msg_chat_id message) (thanksFor message), st,
     [TelegramSend (msg_chat_id message) (thanksFor message)]).
Proof.
  intros Hs Hc. unfold handleMessage. rewrite decide_False by exact Hs.
  unfold coordinatesOf, parseCoordinates in Hc. unfold thanksFor.
  destruct (msg_location message) as [[lat lon]|].
  - injection Hc as <- <-. rewrite bind_read.
    destruct (isAwaiting st (msg_chat_id message)); [reflexivity |].
    now rewrite sendMessage_run.
  - destruct (isValidCoordinates (text_ToString (msg_text message))); [| discriminate].
    injection Hc as Hc. rewrite Hc. rewrite bind_read.
    destruct (isAwaiting st (msg_chat_id message)); [reflexivity |].
    now rewrite sendMessage_run.
Qed.

(** Rule 3: any other text goes through the classifier. *)
Lemma handleMessage_text env message (st : Store) text :
  msg_text message = Some text -> text <> "/start" ->
  coordinatesOf message = None ->
  handleMessage env message st =
  if checkIfLocationBased text then
    (sent env (msg_chat_id message) askLocation,
     <[msg_chat_id message :=
         {| awaitingLocation := true; query := JsString.trim text |}]> st,
     [TelegramSend (msg_chat_id message) askLocation])
  else
    match summarizerAnswer env text with
    | Ok response =>
        (sent env (msg_chat_id message) response, st,
         [ChatCompletion (summarizerExchange text);
          TelegramSend (msg_chat_id message) response])
    | Throw e => (Throw e, st, [ChatCompletion (summarizerExchange text)])
    end.
Proof.
  intros Ht Hs Hc. unfold handleMessage. rewrite Ht.
  rewrite decide_False by congruence.
  unfold coordinatesOf, parseCoordinates in Hc. rewrite Ht in Hc.
  destruct (msg_location message) as [[lat lon]|]; [discriminate |].
  cbn [text_ToString] in *.
  destruct (isValidCoordinates text); [discriminate |].
  destruct (checkIfLocationBased text).
  - unfold setState. unfold bind at 1. rewrite bind_read. unfold write.
    rewrite sendMessage_run. reflexivity.
  - destruct (summarizerAnswer env text) as [response|e] eqn:Hsum.
    + rewrite (bind_run _ _ _ _ _ _
                 (eq_trans (getChatGPTResponse_run env text st)
                           (f_equal (fun r => (r, st, _)) Hsum))).
      rewrite sendMessage_run. reflexivity.
    + rewrite (bind_run_throw _ _ _ _ _ _
                 (eq_trans (getChatGPTResponse_run env text st)
                           (f_equal (fun r => (r, st, _)) Hsum))).
      reflexivity.
Qed.

Lemma awaiting_lookup (st : Store) chatId q :
  st !! chatId = Some {| awaitingLocation := true; query := q |} ->
  isAwaiting st chatId = true /\ storedQuery st chatId = q.
Proof. intros H. unfold isAwaiting, storedQuery. now rewrite H. Qed.

End DispatchFacts.

(** ** The enrichment pipeline *)

Module PipelineFacts.
Import Index IndexFacts DispatchFacts.

Lemma noPlaces_nil : noPlaces (JArr []) = Ok true.
Proof. reflexivity. Qed.

Lemma noPlaces_cons p ps : noPlaces (JArr (p :: ps)) = Ok false.
Proof.
  unfold noPlaces. simpl. reflexivity.
Qed.

Lemma silent_no_reply evs : existsb is_reply evs = false -> List.filter is_reply evs = [].
Proof.
  induction evs as [|e evs IH]; [reflexivity |].
  cbn [existsb List.filter]. intros H. apply orb_false_iff in H as [He Hr].
  rewrite He. auto.
Qed.

End PipelineFacts.

(** C1, as the code has it.  In state AwaitingLocation(q), for a message
    that carries a location or coordinates: when Places Lookup returns the
    empty sequence the reply is ["I couldn't find any nearby {q}. Please try
    again later."] and the store is left as it was, so the chat stays in
    AwaitingLocation(q); when it returns a non-empty sequence and the
    Summarizer returns, its output is sent and, the send delivered, the chat
    is Idle. *)
Theorem enrichment_pipeline_outcome env message (st : gmap Z Index.UserState)
    q latitude longitude :
  let chatId := msg_chat_id message in
  let req := {| req_ll := (latitude, longitude);
                req_radius := 5000;
                req_query := JStr q |} in
  st !! chatId = Some {| Index.awaitingLocation := true; Index.query := q |} ->
  msg_text message <> Some "/start" ->
  coordinatesOf message = Some (latitude, longitude) ->
  (result_of (Index.getNearbyPlaces env latitude longitude q st) = Ok (JArr []) ->
   events_of (Index.handleMessage env message st) =
     [PlacesSearch req;
      TelegramSend chatId ("I couldn't find any nearby " +:+ q +:+ ". Please try again later.")] /\
   store_of (Index.handleMessage env message st) = st /\
   store_of (Index.handleMessage env message st) !! chatId =
     Some {| Index.awaitingLocation := true; Index.query := q |}) /\
  (forall p ps suggestions,
   result_of (Index.getNearbyPlaces env latitude longitude q st) = Ok (JArr (p :: ps)) ->
   result_of (Index.getSuggestionsFromGPT3 env (JArr (p :: ps)) st) = Ok suggestions ->
   telegram_post env chatId suggestions = None ->
   result_of (Index.handleMessage env message st) = Ok tt /\
   List.filter is_reply (events_of (Index.handleMessage env message st)) =
     [TelegramSend chatId suggestions] /\
   store_of (Index.handleMessage env message st) = <[chatId := Index.idle]> st /\
   store_of (Index.handleMessage env message st) !! chatId =
     Some {| Index.awaitingLocation := false; Index.query := "" |}).
Proof.
  intros chatId req Hst Hs Hc.
  destruct (DispatchFacts.awaiting_lookup st chatId q Hst) as [Haw Hq].
  rewrite (DispatchFacts.handleMessage_coordinates env message st _ _ Hs Hc).
  fold chatId. rewrite Haw, Hq. split.
  - intros Hp. rewrite (IndexFacts.handleLocation_run _ _ _ _ _ _ _ Hp).
    rewrite PipelineFacts.noPlaces_nil. fold req.
    unfold events_of, store_of; cbn [fst snd]. auto.
  - intros p ps suggestions Hp Hsum Hsend.
    rewrite (IndexFacts.handleLocation_run _ _ _ _ _ _ _ Hp).
    rewrite PipelineFacts.noPlaces_cons. fold req.
    pose proof (IndexFacts.getSuggestionsFromGPT3_silent env (JArr (p :: ps)) st) as Hsil.
    destruct (Index.getSuggestionsFromGPT3 env (JArr (p :: ps)) st)
      as [[r s'] evs] eqn:HG.
    unfold result_of in Hsum; cbn [fst snd] in Hsum. subst r.
    unfold events_of in Hsil; cbn [snd] in Hsil.
    rewrite Hsend. unfold result_of, events_of, store_of; cbn [fst snd].
    repeat split.
    + cbn [List.filter is_reply]. rewrite List.filter_app. cbn [List.filter is_reply].
      now rewrite (PipelineFacts.silent_no_reply _ Hsil).
    + apply lookup_insert_eq.
Qed.

Lemma enrichment_pipeline_outcome_witness :
  awaitingPizza !! 7 =
    Some {| Index.awaitingLocation := true; Index.query := "pizza nearby" |} /\
  msg_text locationMessage <> Some "/start" /\
  coordinatesOf (textMessage "40.7,-74.0") =
    Some (JNum (fst sample_location), JNum (snd sample_location)) /\
  store_of (Index.handleMessage env_no_places (textMessage "40.7,-74.0") awaitingPizza)
    = awaitingPizza /\
  store_of (Index.handleMessage env_two_places locationMessage awaitingPizza)
    = <[7 := Index.idle]> awaitingPizza.
Proof.
  split; [reflexivity |]. split; [discriminate |]. split; [reflexivity |]. split.
  - apply (proj1 (enrichment_pipeline_outcome env_no_places (textMessage "40.7,-74.0")
                    awaitingPizza "pizza nearby"
                    (JNum (fst sample_location)) (JNum (snd sample_location))
                    eq_refl ltac:(discriminate) eq_refl) eq_refl).
  - apply (proj2 (enrichment_pipeline_outcome env_two_places locationMessage
                    awaitingPizza "pizza nearby"
                    (JNum (fst sample_location)) (JNum (snd sample_location))
                    eq_refl ltac:(discriminate) eq_refl)
                 (sample_place "Luigi") [sample_place "Mario"] "Luigi is the best."
                 eq_refl eq_refl eq_refl).
Defined.

(** C1, as the specification words it, fails: after an empty lookup the
    not-found reply is sent but the chat is still AwaitingLocation, not
    Idle. *)
Lemma empty_lookup_keeps_awaiting :
  let after := Index.handleMessage env_no_places locationMessage awaitingPizza in
  result_of (Index.getNearbyPlaces env_no_places
               (JNum (fst sample_location)) (JNum (snd sample_location))
               "pizza nearby" awaitingPizza) = Ok (JArr []) /\
  List.filter is_reply (events_of after) =
    [TelegramSend 7 "I couldn't find any nearby pizza nearby. Please try again later."] /\
  Index.isAwaiting (store_of after) 7 = true /\
  store_of after !! 7 <> Some Index.idle.
Proof.
  cbv zeta. repeat split; try reflexivity.
  vm_compute. discriminate.
Qed.

(** C10. In state AwaitingLocation(q), when Places Lookup returns a
    non-empty sequence and the Summarizer call fails, the turn ends with that
    failure, no reply is sent, and the store is left as it was: the chat
    stays in AwaitingLocation(q). *)
Theorem summarizer_failure_keeps_state env message (st : gmap Z Index.UserState)
    q latitude longitude p ps e :
  let chatId := msg_chat_id message in
  st !! chatId = Some {| Index.awaitingLocation := true; Index.query := q |} ->
  msg_text message <> Some "/start" ->
  coordinatesOf message = Some (latitude, longitude) ->
  result_of (Index.getNearbyPlaces env latitude longitude q st) = Ok (JArr (p :: ps)) ->
  result_of (Index.getSuggestionsFromGPT3 env (JArr (p :: ps)) st) = Throw e ->
  result_of (Index.handleMessage env message st) = Throw e /\
  List.filter is_reply (events_of (Index.handleMessage env message st)) = [] /\
  store_of (Index.handleMessage env message st) = st /\
  store_of (Index.handleMessage env message st) !! chatId =
    Some {| Index.awaitingLocation := true; Index.query := q |}.
Proof.
  intros chatId Hst Hs Hc Hp Hsum.
  destruct (DispatchFacts.awaiting_lookup st chatId q Hst) as [Haw Hq].
  rewrite (DispatchFacts.handleMessage_coordinates env message st _ _ Hs Hc).
  fold chatId. rewrite Haw, Hq.
  rewrite (IndexFacts.handleLocation_run _ _ _ _ _ _ _ Hp).
  rewrite PipelineFacts.noPlaces_cons.
  pose proof (IndexFacts.getSuggestionsFromGPT3_silent env (JArr (p :: ps)) st) as Hsil.
  destruct (Index.getSuggestionsFromGPT3 env (JArr (p :: ps)) st) as [[r s'] evs].
  unfold result_of in Hsum; cbn [fst snd] in Hsum. subst r.
  unfold events_of in Hsil; cbn [snd] in Hsil.
  unfold result_of, events_of, store_of; cbn [fst snd].
  repeat split; try assumption.
  cbn [List.filter is_reply]. now apply PipelineFacts.silent_no_reply.
Qed.

Lemma summarizer_failure_keeps_state_witness :
  let after := Index.handleMessage env_model_down locationMessage awaitingPizza in
  result_of after = Throw ApiError /\
  List.filter is_reply (events_of after) = [] /\
  store_of after = awaitingPizza /\
  store_of after !! 7 =
    Some {| Index.awaitingLocation := true; Index.query := "pizza nearby" |}.
Proof.
  apply (summarizer_failure_keeps_state env_model_down locationMessage awaitingPizza
           "pizza nearby" (JNum (fst sample_location)) (JNum (snd sample_location))
           (sample_place "Luigi") [sample_place "Mario"] ApiError
           eq_refl ltac:(discriminate) eq_refl eq_refl eq_refl).
Defined.

(** C6. Whatever the store holds for the chat, a [/start] message sets
    its state to Idle with an empty query and replies with the fixed
    greeting; a second [/start] leaves the same state and sends the same
    greeting. *)
Theorem start_is_idempotent (env1 env2 : Env) (st : gmap Z Index.UserState)
    (chatId : Z) (location : option (jsnum * jsnum)) :
  let message := {| msg_chat_id := chatId;
                    msg_text := Some "/start";
                    msg_location := location |} in
  let once := Index.handleMessage env1 message st in
  let twice := Index.handleMessage env2 message (store_of once) in
  store_of once = <[chatId := Index.idle]> st /\
  store_of once !! chatId =
    Some {| Index.awaitingLocation := false; Index.query := "" |} /\
  events_of once =
    [TelegramSend chatId "Hello! How can I assist you today? Ask me anything!"] /\
  store_of twice = store_of once /\
  events_of twice = events_of once.
Proof.
  intros message once twice. subst once twice.
  rewrite !(DispatchFacts.handleMessage_start _ message) by reflexivity.
  unfold store_of, events_of; cbn [fst snd msg_chat_id message].
  repeat split.
  - apply lookup_insert_eq.
  - apply insert_insert_eq.
Qed.

(** C9, as the code has it.  For a text that is not [/start], is not
    accepted by the Coordinate Parser and on which the classifier is false,
    the Summarizer is called with exactly that text as the prompt, its
    result is the reply, and the store is left as it was for every starting
    state: an Idle chat stays Idle and a chat in AwaitingLocation(q) stays in
    AwaitingLocation(q). *)
Theorem direct_question_keeps_state env message (st : gmap Z Index.UserState) text :
  let chatId := msg_chat_id message in
  let after := Index.handleMessage env message st in
  msg_text message = Some text -> text <> "/start" ->
  coordinatesOf message = None ->
  checkIfLocationBased text = false ->
  store_of after = st /\
  (exists rest, events_of after =
     ChatCompletion {| req_model := "gpt-3.5-turbo";
                       req_messages := [("system", "You are a helpful assistant.");
                                        ("user", text)];
                       req_max_tokens := 150 |} :: rest) /\
  (forall reply, summarizerAnswer env text = Ok reply ->
     List.filter is_reply (events_of after) = [TelegramSend chatId reply]) /\
  (forall e, summarizerAnswer env text = Throw e ->
     result_of after = Throw e /\ List.filter is_reply (events_of after) = []) /\
  (Index.isAwaiting st chatId = false -> Index.isAwaiting (store_of after) chatId = false) /\
  (forall q, st !! chatId = Some {| Index.awaitingLocation := true; Index.query := q |} ->
     store_of after !! chatId =
       Some {| Index.awaitingLocation := true; Index.query := q |}).
Proof.
  intros chatId after Ht Hs Hc Hcls. subst after.
  rewrite (DispatchFacts.handleMessage_text env message st text Ht Hs Hc), Hcls.
  fold chatId.
  destruct (summarizerAnswer env text) as [reply|e];
    unfold store_of, events_of, result_of; cbn [fst snd];
    (split; [reflexivity |]); (split; [eexists; reflexivity |]);
    (split; [intros r Hr; try discriminate Hr; injection Hr as <-; reflexivity |]);
    (split; [intros e' He'; try discriminate He'; injection He' as <-; auto |]);
    auto.
Qed.

Lemma direct_question_keeps_state_witness :
  let message := textMessage "What is the capital of France" in
  let after := Index.handleMessage env_two_places message awaitingPizza in
  store_of after = awaitingPizza /\
  List.filter is_reply (events_of after) = [TelegramSend 7 "Luigi is the best."].
Proof.
  intros message after.
  pose proof (direct_question_keeps_state env_two_places message awaitingPizza
                "What is the capital of France" eq_refl ltac:(discriminate)
                eq_refl eq_refl) as (Hst & _ & Hreply & _).
  split; [exact Hst | exact (Hreply "Luigi is the best." eq_refl)].
Defined.

(** C9, as the specification words it, fails for a chat that is waiting
    for a location: after the direct question the chat is still in
    AwaitingLocation, it does not "remain Idle". *)
Lemma direct_question_while_awaiting :
  let message := textMessage "What is the capital of France" in
  let after := Index.handleMessage env_two_places message awaitingPizza in
  msg_text message <> Some "/start" /\
  coordinatesOf message = None /\
  checkIfLocationBased "What is the capital of France" = false /\
  Index.isAwaiting (store_of after) 7 = true /\
  store_of after !! 7 <> Some Index.idle.
Proof.
  cbv zeta. split; [discriminate |]. repeat split; try reflexivity.
  vm_compute. discriminate.
Qed.

(** ** The Summarizer *)

Module SummarizerFacts.

Lemma join_comma_joined names : JsString.join ", " names = comma_joined names.
Proof.
  destruct names as [|n names]; [reflexivity |].
  unfold comma_joined. revert n.
  induction names as [|m names IH]; intros n.
  - simpl. now rewrite append_nil_r.
  - change (JsString.join ", " (n :: m :: names))
      with (n +:+ ", " +:+ JsString.join ", " (m :: names)).
    rewrite IH. reflexivity.
Qed.

Lemma array_map_names places names :
  Forall2 named places names ->
  array_map (fun place => Js.get place "name") (JArr places) = Ok (map JStr names).
Proof.
  unfold array_map. induction 1 as [|p n ps ns Hp _ IH]; [reflexivity |].
  cbn [map_outcome map]. unfold named in Hp. now rewrite Hp, IH.
Qed.

Lemma join_names ntos names :
  Js.join ntos ", " (map JStr names) = comma_joined names.
Proof.
  rewrite <- join_comma_joined. unfold Js.join. rewrite map_map.
  cbn [Js.join_elem Js.toString]. now rewrite map_id.
Qed.

(** The names keep their order inside the joined text. *)
Lemma comma_joined_order l1 a l2 b l3 :
  exists pre mid post,
    comma_joined (l1 ++ a :: l2 ++ b :: l3) = pre +:+ a +:+ mid +:+ b +:+ post.
Proof.
  assert (Htail : forall l, exists pre post,
             fold_right (fun name acc => ", " +:+ name +:+ acc) "" (l ++ b :: l3)
             = pre +:+ b +:+ post).
  { induction l as [|x l IH].
    - exists ", ". eexists. cbn [app fold_right]. now rewrite ?append_assoc.
    - destruct IH as (pre & post & E). exists (", " +:+ x +:+ pre), post.
      cbn [app fold_right]. rewrite E. now rewrite ?append_assoc. }
  assert (Hmid : forall l, exists pre mid post,
             fold_right (fun name acc => ", " +:+ name +:+ acc) ""
               (l ++ a :: l2 ++ b :: l3)
             = pre +:+ a +:+ mid +:+ b +:+ post).
  { induction l as [|x l IH].
    - destruct (Htail l2) as (pre & post & E).
      exists ", ", pre, post. cbn [app fold_right]. rewrite E.
      now rewrite ?append_assoc.
    - destruct IH as (pre & mid & post & E).
      exists (", " +:+ x +:+ pre), mid, post.
      cbn [app fold_right]. rewrite E. now rewrite ?append_assoc. }
  destruct l1 as [|x l1]; cbn [app comma_joined].
  - destruct (Htail l2) as (pre & post & E). exists "", pre, post.
    now rewrite E.
  - destruct (Hmid l1) as (pre & mid & post & E).
    exists (x +:+ pre), mid, post. rewrite E. now rewrite ?append_assoc.
Qed.

(** The white space code point [space_head] finds at the head of a
    string. *)
Lemma space_head_inv s r :
  JsString.space_head s = Some r ->
  exists c p, s = String c p +:+ r /\
              all_chars space_byte (String c p) = true /\
              forall w, JsString.space_head (String c p +:+ w) = Some w.
Proof.
  destruct s as [|c1 r1]; [discriminate |].
  cbn [JsString.space_head]. destruct (JsString.is_space c1) eqn:H1.
  { intros [= <-]. exists c1, "". split; [reflexivity |]. split.
    - cbn. unfold space_byte. now rewrite H1.
    - intros w. cbn. now rewrite H1. }
  destruct r1 as [|c2 r2]; [discriminate |].
  destruct (JsString.is_space2 c1 c2) eqn:H2.
  { intros [= <-]. exists c1, (String c2 ""). split; [reflexivity |]. split.
    - unfold JsString.is_space2 in H2.
      rewrite andb_true_iff, !N.eqb_eq in H2. destruct H2 as [E1 E2].
      assert (H : (128 <= N_of_ascii c1 /\ 128 <= N_of_ascii c2)%N) by lia.
      destruct H as (L1 & L2). apply N.leb_le in L1, L2.
      cbn. unfold space_byte. rewrite L1, L2, !orb_true_r. reflexivity.
    - intros w. cbn. now rewrite H1, H2. }
  destruct r2 as [|c3 r3]; [discriminate |].
  destruct (JsString.is_space3 c1 c2 c3) eqn:H3; [| discriminate].
  intros [= <-]. exists c1, (String c2 (String c3 "")). split; [reflexivity |]. split.
  - unfold JsString.is_space3 in H3. cbv zeta in H3.
    rewrite !orb_true_iff, !andb_true_iff, !orb_true_iff, !andb_true_iff,
      !N.eqb_eq, !N.leb_le in H3.
    assert (H : (128 <= N_of_ascii c1 /\ 128 <= N_of_ascii c2 /\
                 128 <= N_of_ascii c3)%N) by lia.
    destruct H as (E1 & E2 & E3). apply N.leb_le in E1, E2, E3.
    cbn. unfold space_byte. rewrite E1, E2, E3, !orb_true_r. reflexivity.
  - intros w. cbn. now rewrite H1, H2, H3.
Qed.

Lemma space_head_shorter s r :
  JsString.space_head s = Some r -> (String.length r < String.length s)%nat.
Proof.
  intros H. apply space_head_inv in H as (c & p & -> & _).
  rewrite ParseFacts.length_append. cbn. lia.
Qed.

(** Induction along the white space code points at the head of a string. *)
Lemma space_ind (P : string -> Prop) :
  (forall s, JsString.space_head s = None -> P s) ->
  (forall s r, JsString.space_head s = Some r -> P r -> P s) ->
  forall s, P s.
Proof.
  intros Hnone Hsome s.
  assert (H : forall n s, (String.length s <= n)%nat -> P s).
  { clear s. induction n as [|n IH]; intros s Hs.
    - destruct s; [now apply Hnone | cbn in Hs; lia].
    - destruct (JsString.space_head s) as [r|] eqn:E; [| now apply Hnone].
      apply (Hsome s r E). apply IH.
      apply space_head_shorter in E. lia. }
  now apply (H (String.length s)).
Qed.

Lemma trimStart_unfold s :
  JsString.trimStart s =
  match JsString.space_head s with
  | Some r => JsString.trimStart r
  | None => s
  end.
Proof.
  destruct s as [|c1 r1]; [reflexivity |].
  cbn [JsString.trimStart JsString.space_head].
  destruct (JsString.is_space c1); [reflexivity |].
  destruct r1 as [|c2 r2]; [reflexivity |]. cbv beta match.
  destruct (JsString.is_space2 c1 c2); [reflexivity |].
  destruct r2 as [|c3 r3]; [reflexivity |]. cbv beta match.
  destruct (JsString.is_space3 c1 c2 c3); reflexivity.
Qed.

Lemma is_blank_unfold s :
  JsString.is_blank s =
  match s with
  | EmptyString => true
  | String _ _ =>
      match JsString.space_head s with
      | Some r => JsString.is_blank r
      | None => false
      end
  end.
Proof.
  destruct s as [|c1 r1]; [reflexivity |].
  cbn [JsString.is_blank JsString.space_head].
  destruct (JsString.is_space c1); [reflexivity |].
  destruct r1 as [|c2 r2]; [reflexivity |]. cbv beta match.
  destruct (JsString.is_space2 c1 c2); [reflexivity |].
  destruct r2 as [|c3 r3]; [reflexivity |]. cbv beta match.
  destruct (JsString.is_space3 c1 c2 c3); reflexivity.
Qed.

Lemma is_blank_nonempty s :
  s <> "" -> JsString.is_blank s = true ->
  exists r, JsString.space_head s = Some r /\ JsString.is_blank r = true.
Proof.
  intros Hs H. rewrite is_blank_unfold in H. destruct s; [congruence |].
  destruct (JsString.space_head (String a s)) as [r|]; [| discriminate].
  now exists r.
Qed.

Lemma is_blank_step c p w :
  JsString.space_head (String c p +:+ w) = Some w ->
  JsString.is_blank (String c p +:+ w) = JsString.is_blank w.
Proof.
  intros H. rewrite is_blank_unfold.
  change (String c p +:+ w) with (String c (p +:+ w)) in *. now rewrite H.
Qed.

Lemma is_blank_app a b :
  JsString.is_blank a = true -> JsString.is_blank b = true ->
  JsString.is_blank (a +:+ b) = true.
Proof.
  intros Ha Hb. revert Ha. pattern a. apply space_ind; clear a.
  - intros s Hs Ha. destruct s as [|c s]; [exact Hb |].
    rewrite is_blank_unfold, Hs in Ha. discriminate.
  - intros s r Hs IH Ha.
    pose proof Hs as Hs'. apply space_head_inv in Hs' as (c & p & -> & _ & Hw).
    rewrite (is_blank_step c p r (Hw r)) in Ha.
    rewrite append_assoc, (is_blank_step c p _ (Hw _)). now apply IH.
Qed.


(** ASCII white space is white space. *)
Lemma blank_is_blank s : blank s = true -> JsString.is_blank s = true.
Proof.
  unfold blank. induction s as [|c s IH]; [reflexivity |].
  cbn [all_chars]. rewrite andb_true_iff. intros [Hc Hs].
  cbn [JsString.is_blank]. rewrite Hc. now apply IH.
Qed.

Lemma trimStart_split s :
  exists pre, s = pre +:+ JsString.trimStart s /\ JsString.is_blank pre = true.
Proof.
  pattern s. apply space_ind; clear s.
  - intros s Hs. exists "". rewrite trimStart_unfold, Hs. now split.
  - intros s r Hs (pre & E & Hpre).
    rewrite trimStart_unfold, Hs.
    apply space_head_inv in Hs as (c & p & -> & _ & Hw).
    exists (String c p +:+ pre). split.
    + rewrite append_assoc. now rewrite <- E.
    + now rewrite (is_blank_step c p pre (Hw pre)).
Qed.

Lemma trimStart_head s : JsString.space_head (JsString.trimStart s) = None.
Proof.
  pattern s. apply space_ind; clear s.
  - intros s Hs. now rewrite trimStart_unfold, Hs.
  - intros s r Hs IH. now rewrite trimStart_unfold, Hs.
Qed.

Lemma trimEnd_unfold c s :
  JsString.trimEnd (String c s) =
  if JsString.is_blank (String c s) then "" else String c (JsString.trimEnd s).
Proof. reflexivity. Qed.

Lemma trimEnd_split s :
  exists post, s = JsString.trimEnd s +:+ post /\ JsString.is_blank post = true.
Proof.
  induction s as [|c s (post & E & Hb)]; [now exists "" |].
  rewrite trimEnd_unfold. destruct (JsString.is_blank (String c s)) eqn:Hc.
  - now exists (String c s).
  - exists post. split; [| exact Hb].
    change (String c s = String c (JsString.trimEnd s +:+ post)). now rewrite <- E.
Qed.

Lemma trimEnd_last s r w :
  JsString.trimEnd s = r +:+ w -> JsString.is_blank w = true -> w = "".
Proof.
  revert r; induction s as [|c s IH]; intros r.
  - cbn. intros H _. symmetry in H. now apply append_eq_nil in H.
  - rewrite trimEnd_unfold. destruct (JsString.is_blank (String c s)) eqn:Hc.
    + intros H _. symmetry in H. now apply append_eq_nil in H.
    + destruct r as [|x r]; cbn [String.append].
      * intros <- Hw. exfalso.
        destruct (trimEnd_split s) as (post & E & Hpost).
        assert (Hb : JsString.is_blank (String c (JsString.trimEnd s) +:+ post) = true)
          by now apply is_blank_app.
        change (String c (JsString.trimEnd s) +:+ post)
          with (String c (JsString.trimEnd s +:+ post)) in Hb.
        rewrite <- E in Hb. congruence.
      * intros [= _ H]. now apply (IH r).
Qed.

Lemma trimEnd_blank s : JsString.is_blank s = true -> JsString.trimEnd s = "".
Proof. destruct s as [|c s]; [reflexivity |]. rewrite trimEnd_unfold. now intros ->. Qed.


(** [trim] removes the white space at both ends and nothing else. *)
Lemma trim_spec s :
  unicode_trimmed (JsString.trim s) /\
  exists pre post,
    s = pre +:+ JsString.trim s +:+ post /\
    JsString.is_blank pre = true /\ JsString.is_blank post = true.
Proof.
  unfold JsString.trim. split.
  - split.
    + destruct (trimEnd_split (JsString.trimStart s)) as (post & E & _).
      pose proof (trimStart_head s) as H. rewrite E in H.
      destruct (JsString.space_head (JsString.trimEnd (JsString.trimStart s)))
        as [r|] eqn:Hr; [| reflexivity].
      apply space_head_inv in Hr as (c & p & Ht & _ & Hw).
      rewrite Ht, append_assoc, Hw in H. discriminate.
    + intros r w. apply trimEnd_last.
  - destruct (trimStart_split s) as (pre & E1 & H1).
    destruct (trimEnd_split (JsString.trimStart s)) as (post & E2 & H2).
    exists pre, post. now rewrite <- E2, <- E1.
Qed.


End SummarizerFacts.

(** C7. For places that each carry a name, the prompt the Summarizer
    receives is ["Here are some nearby places: "], the names joined by a
    comma and a space, [". Please suggest the best ones to visit."], with the
    names in the order of the sequence Places Lookup returned. *)
Theorem place_enrichment_prompt env (st : gmap Z Index.UserState)
    (places : list jsval) (names : list string) :
  Forall2 named places names ->
  events_of (Index.getSuggestionsFromGPT3 env (JArr places) st) =
    [ChatCompletion
       {| req_model := "gpt-3.5-turbo";
          req_messages :=
            [("system", "You are a helpful assistant.");
             ("user", "Here are some nearby places: " +:+ comma_joined names +:+
                      ". Please suggest the best ones to visit.")];
          req_max_tokens := 150 |}] /\
  (forall l1 a l2 b l3, names = l1 ++ a :: l2 ++ b :: l3 ->
     exists pre mid post, comma_joined names = pre +:+ a +:+ mid +:+ b +:+ post) /\
  comma_joined ["Luigi"; "Mario"; "Peach"] = "Luigi, Mario, Peach".
Proof.
  intros Hn. split; [| split; [| reflexivity]].
  - rewrite IndexFacts.getSuggestionsFromGPT3_run.
    rewrite (SummarizerFacts.array_map_names _ _ Hn).
    unfold Index.placesPrompt. now rewrite SummarizerFacts.join_names.
  - intros l1 a l2 b l3 ->. apply SummarizerFacts.comma_joined_order.
Qed.

Lemma place_enrichment_prompt_witness :
  Forall2 named [sample_place "Luigi"; sample_place "Mario"] ["Luigi"; "Mario"] /\
  events_of (Index.getSuggestionsFromGPT3 env_two_places
               (JArr [sample_place "Luigi"; sample_place "Mario"]) awaitingPizza) =
    [ChatCompletion
       {| req_model := "gpt-3.5-turbo";
          req_messages :=
            [("system", "You are a helpful assistant.");
             ("user", "Here are some nearby places: Luigi, Mario. Please suggest the best ones to visit.")];
          req_max_tokens := 150 |}].
Proof.
  assert (H : Forall2 named [sample_place "Luigi"; sample_place "Mario"] ["Luigi"; "Mario"])
    by (repeat constructor).
  split; [exact H |].
  exact (proj1 (place_enrichment_prompt env_two_places awaitingPizza _ _ H)).
Defined.

Lemma first_choice_text_ok response choice rest message content :
  Js.get response "choices" = Ok (JArr (choice :: rest)) ->
  Js.get choice "message" = Ok message ->
  Js.get message "content" = Ok (JStr content) ->
  first_choice_text response = Ok (JsString.trim content).
Proof.
  intros H1 H2 H3. unfold first_choice_text.
  rewrite H1. cbn [Js.first]. now rewrite H2, H3.
Qed.

(** C8. Each of the two summarizing functions sends one request to the
    completion provider: the system instruction ["You are a helpful
    assistant."] followed by one user message holding the prompt, capped at
    150 output tokens; and it returns the trimmed content of the first choice
    of the response: the content without the white space code points, of
    the ASCII range or beyond it, at its two ends, and with nothing else
    removed. *)
Theorem summarizer_exchange env (st : gmap Z Index.UserState)
    (prompt : string) (places : jsval) (names : list jsval) :
  let exchange (text : string) :=
    {| req_model := "gpt-3.5-turbo";
       req_messages := [("system", "You are a helpful assistant."); ("user", text)];
       req_max_tokens := 150 |} in
  let answer (text : string) :=
    match openai_create env (exchange text) with
    | Ok response => first_choice_text response
    | Throw e => Throw e
    end in
  (events_of (Index.getChatGPTResponse env prompt st) = [ChatCompletion (exchange prompt)] /\
   result_of (Index.getChatGPTResponse env prompt st) = answer prompt /\
   store_of (Index.getChatGPTResponse env prompt st) = st) /\
  (array_map (fun place => Js.get place "name") places = Ok names ->
   events_of (Index.getSuggestionsFromGPT3 env places st) =
     [ChatCompletion (exchange (Index.placesPrompt env names))] /\
   result_of (Index.getSuggestionsFromGPT3 env places st) =
     answer (Index.placesPrompt env names) /\
   store_of (Index.getSuggestionsFromGPT3 env places st) = st) /\
  (forall text response choice rest message content,
   openai_create env (exchange text) = Ok response ->
   Js.get response "choices" = Ok (JArr (choice :: rest)) ->
   Js.get choice "message" = Ok message ->
   Js.get message "content" = Ok (JStr content) ->
   answer text = Ok (JsString.trim content) /\
   unicode_trimmed (JsString.trim content) /\
   exists pre post,
     content = pre +:+ JsString.trim content +:+ post /\
     JsString.is_blank pre = true /\ JsString.is_blank post = true) /\
  JsString.trim (nbsp +:+ " Luigi is the best." +:+ ideographic_space +:+ newline)
    = "Luigi is the best.".
Proof.
  intros exchange answer.
  change exchange with summarizerExchange.
  change answer with (summarizerAnswer env).
  split; [| split; [| split; [| reflexivity]]].
  - now rewrite IndexFacts.getChatGPTResponse_run.
  - intros Hn. rewrite IndexFacts.getSuggestionsFromGPT3_run, Hn. auto.
  - intros text response choice rest message content Hr H1 H2 H3.
    split; [| apply SummarizerFacts.trim_spec].
    unfold summarizerAnswer. rewrite Hr.
    now apply (first_choice_text_ok response choice rest message content).
Qed.

Lemma summarizer_exchange_witness :
  array_map (fun place => Js.get place "name")
    (JArr [sample_place "Luigi"; sample_place "Mario"]) =
    Ok [JStr "Luigi"; JStr "Mario"] /\
  result_of (Index.getSuggestionsFromGPT3 env_two_places
               (JArr [sample_place "Luigi"; sample_place "Mario"]) awaitingPizza) =
    Ok "Luigi is the best." /\
  match openai_create env_two_places (summarizerExchange "Which one?") with
  | Ok response => first_choice_text response
  | Throw e => Throw e
  end = Ok (JsString.trim "  Luigi is the best.  ").
Proof.
  pose proof (summarizer_exchange env_two_places awaitingPizza "Which one?"
                (JArr [sample_place "Luigi"; sample_place "Mario"])
                [JStr "Luigi"; JStr "Mario"]) as (_ & Hsite & Hanswer).
  split; [reflexivity |]. split.
  - destruct (Hsite eq_refl) as (_ & Hres & _). rewrite Hres. reflexivity.
  - apply (proj1 Hanswer "Which one?" (sample_completion "  Luigi is the best.  ")
             _ [] _ "  Luigi is the best.  " eq_refl eq_refl eq_refl eq_refl).
Defined.

(** ** The SDK variants *)

Module VariantFacts.

Lemma search_getNearbyPlaces_run env latitude longitude query
    (st : gmap Z (option string)) :
  let req := {| req_ll := (latitude, longitude);
                req_radius := 5000;
                req_query := query |} in
  SearchBot.getNearbyPlaces env latitude longitude query st =
  (Ok (sdkResults (sdk_placeSearch env req)), st, [PlacesSearch req]).
Proof.
  intros req. unfold SearchBot.getNearbyPlaces, try_catch, sdkResults. fold req.
  rewrite bind_emit.
  destruct (sdk_placeSearch env req) as [result|e]; [| reflexivity].
  rewrite bind_lift_ok.
  destruct (Js.get result "data") as [data|e]; [| reflexivity].
  rewrite bind_lift_ok.
  destruct (Js.get data "results") as [results|e]; reflexivity.
Qed.

Lemma amusement_getNearbyAmusementParks_run env latitude longitude (st : unit) :
  let req := {| req_ll := (latitude, longitude);
                req_radius := 100000;
                req_query := JStr "amusement" |} in
  AmusementBot.getNearbyAmusementParks env latitude longitude st =
  (Ok (sdkResults (sdk_placeSearch env req)), st, [PlacesSearch req]).
Proof.
  intros req. unfold AmusementBot.getNearbyAmusementParks, try_catch, sdkResults.
  fold req. rewrite bind_emit.
  destruct (sdk_placeSearch env req) as [result|e]; [| reflexivity].
  rewrite bind_lift_ok.
  destruct (Js.get result "data") as [data|e]; [| reflexivity].
  rewrite bind_lift_ok.
  destruct (Js.get data "results") as [results|e]; reflexivity.
Qed.

End VariantFacts.

(** [index.mjs] hands on a [results] field that is present, whatever it
    holds. *)
Example getNearbyPlaces_results_not_a_list :
  result_of (Index.getNearbyPlaces
               (sample_env (JsonBody (JObj [("results", JStr "none")]))
                           (Throw ApiError) (Throw ApiError))
               JNull JNull "pizza" awaitingPizza) = Ok (JStr "none").
Proof. reflexivity. Qed.

(** C5, as the code has it.  The lookup searches with a fixed radius,
    5000 meters in [index.mjs] and in the search-term variant and 100000
    meters in [bot.mjs]; it never throws; when the request fails, when the
    body is not JSON, when in [index.mjs] the body is falsy or has no truthy
    [results], and when in the SDK variants the answer has no [data], it
    returns the empty sequence, the same value as for a provider that found
    nothing. *)
Theorem places_lookup_spec env latitude longitude (query : string) (term : jsval)
    (st : gmap Z Index.UserState) (st' : gmap Z (option string)) :
  let req := {| req_ll := (latitude, longitude);
                req_radius := 5000;
                req_query := JStr query |} in
  let req' := {| req_ll := (latitude, longitude);
                 req_radius := 5000;
                 req_query := term |} in
  let req'' := {| req_ll := (latitude, longitude);
                  req_radius := 100000;
                  req_query := JStr "amusement" |} in
  let lookup := Index.getNearbyPlaces env latitude longitude query st in
  let lookup' := SearchBot.getNearbyPlaces env latitude longitude term st' in
  let lookup'' := AmusementBot.getNearbyAmusementParks env latitude longitude tt in
  (events_of lookup = [PlacesSearch req] /\ store_of lookup = st /\
   (exists places, result_of lookup = Ok places) /\
   (foursquare_get env req = NetworkFailure -> result_of lookup = Ok (JArr [])) /\
   (foursquare_get env req = BodyNotJson -> result_of lookup = Ok (JArr [])) /\
   (forall data, foursquare_get env req = JsonBody data ->
      Js.truthy data = false -> result_of lookup = Ok (JArr [])) /\
   (forall data results, foursquare_get env req = JsonBody data ->
      Js.get data "results" = Ok results -> Js.truthy results = false ->
      result_of lookup = Ok (JArr [])) /\
   (forall data places, foursquare_get env req = JsonBody data ->
      Js.get data "results" = Ok (JArr places) ->
      result_of lookup = Ok (JArr places))) /\
  (events_of lookup' = [PlacesSearch req'] /\ store_of lookup' = st' /\
   (exists places, result_of lookup' = Ok places) /\
   (forall e, sdk_placeSearch env req' = Throw e -> result_of lookup' = Ok (JArr [])) /\
   (forall answer, sdk_placeSearch env req' = Ok answer ->
      Js.get answer "data" = Ok JUndefined -> result_of lookup' = Ok (JArr []))) /\
  (events_of lookup'' = [PlacesSearch req''] /\
   (exists places, result_of lookup'' = Ok places) /\
   (forall e, sdk_placeSearch env req'' = Throw e -> result_of lookup'' = Ok (JArr [])) /\
   (forall answer, sdk_placeSearch env req'' = Ok answer ->
      Js.get answer "data" = Ok JUndefined -> result_of lookup'' = Ok (JArr []))).
Proof.
  intros req req' req'' lookup lookup' lookup''.
  subst lookup lookup' lookup''.
  rewrite IndexFacts.getNearbyPlaces_run, VariantFacts.search_getNearbyPlaces_run,
    VariantFacts.amusement_getNearbyAmusementParks_run.
  fold req req' req''. unfold result_of, store_of, events_of; cbn [fst snd].
  split; [| split].
  - split; [reflexivity |]. split; [reflexivity |]. split; [eauto |].
    split; [now intros -> |]. split; [now intros -> |]. split; [| split].
    + intros data -> Hd. destruct (Js.get data "results"); [| reflexivity].
      now rewrite Hd.
    + intros data results -> -> Hr. now rewrite Hr, andb_false_r.
    + intros data places -> Hg. rewrite Hg.
      destruct data; try discriminate Hg;
        try (cbn in Hg; destruct (String.eqb _ _) in Hg; discriminate Hg).
      reflexivity.
  - split; [reflexivity |]. split; [reflexivity |]. split; [eauto |].
    split; [now intros e -> |]. intros answer -> Hd. cbn [sdkResults]. now rewrite Hd.
  - split; [reflexivity |]. split; [eauto |].
    split; [now intros e -> |]. intros answer -> Hd. cbn [sdkResults]. now rewrite Hd.
Qed.

Lemma places_lookup_spec_witness :
  let env := sample_env NetworkFailure (Throw ApiError) (Throw ApiError) in
  foursquare_get env {| req_ll := (JNull, JNull); req_radius := 5000;
                        req_query := JStr "pizza" |} = NetworkFailure /\
  result_of (Index.getNearbyPlaces env JNull JNull "pizza" awaitingPizza) = Ok (JArr []) /\
  result_of (Index.getNearbyPlaces env_no_places JNull JNull "pizza" awaitingPizza)
    = Ok (JArr []) /\
  result_of (SearchBot.getNearbyPlaces env JNull JNull (JStr "pizza") ∅) = Ok (JArr []).
Proof.
  intros env.
  pose proof (places_lookup_spec env JNull JNull "pizza" (JStr "pizza") awaitingPizza ∅)
    as ((_ & _ & _ & Hnet & _) & (_ & _ & _ & Hsdk & _) & _).
  pose proof (places_lookup_spec env_no_places JNull JNull "pizza" (JStr "pizza")
                awaitingPizza ∅) as ((_ & _ & _ & _ & _ & _ & _ & Hlist) & _).
  split; [reflexivity |]. split; [exact (Hnet eq_refl) |]. split.
  - exact (Hlist (JObj [("results", JArr [])]) [] eq_refl eq_refl).
  - exact (Hsdk ApiError eq_refl).
Defined.

(** C5, as the specification words it, fails: the lookup of [bot.mjs]
    searches with a radius of 100000 meters, not 5000. *)
Lemma amusement_radius_is_not_5000 :
  exists req,
    events_of (AmusementBot.getNearbyAmusementParks env_two_places
                 (JNum (fst sample_location)) (JNum (snd sample_location)) tt)
      = [PlacesSearch req] /\
    req_radius req = 100000 /\ req_radius req <> 5000.
Proof.
  eexists. split; [reflexivity |]. split; [reflexivity | discriminate].
Qed.

(** ** The Dispatchers of the SDK variants, rule by rule *)

Module VariantDispatch.

Lemma coordinates_text_hasText text latitude longitude :
  parseCoordinates (text_ToString text) = Some (latitude, longitude) ->
  SearchBot.hasText text = true /\
  isValidCoordinates (text_ToString text) = true /\
  destructure2 (splitCoordinates (text_ToString text)) = (latitude, longitude).
Proof.
  unfold parseCoordinates. destruct (isValidCoordinates (text_ToString text)) eqn:E;
    [| discriminate].
  intros [= H]. split; [| auto].
  destruct text as [[|c t]|]; try discriminate E. reflexivity.
Qed.

Lemma not_coordinates_text text :
  parseCoordinates (text_ToString text) = None ->
  SearchBot.hasText text && isValidCoordinates (text_ToString text) = false.
Proof.
  unfold parseCoordinates. destruct (isValidCoordinates (text_ToString text));
    [discriminate | now rewrite andb_false_r].
Qed.

Lemma search_start env message (st : gmap Z (option string)) :
  msg_text message = Some "/start" ->
  SearchBot.handleMessage env message st =
  (sent env (msg_chat_id message) SearchBot.greeting,
   <[msg_chat_id message := None]> st,
   [TelegramSend (msg_chat_id message) SearchBot.greeting]).
Proof.
  intros H. unfold SearchBot.handleMessage. rewrite decide_True by exact H.
  unfold SearchBot.setTerm. unfold bind at 1. rewrite bind_read. unfold write.
  rewrite sendMessage_run. reflexivity.
Qed.

(** No search term stored: any text becomes the search term. *)
Lemma search_term_first env message (st : gmap Z (option string)) text :
  msg_text message = Some text -> text <> "/start" -> text <> "" ->
  Js.truthy (SearchBot.searchTermOf st (msg_chat_id message)) = false ->
  SearchBot.handleMessage env message st =
  (sent env (msg_chat_id message) "Please share your location.",
   <[msg_chat_id message := Some (JsString.trim text)]> st,
   [TelegramSend (msg_chat_id message) "Please share your location."]).
Proof.
  intros Ht Hs Hne Hterm. unfold SearchBot.handleMessage.
  rewrite decide_False by congruence. rewrite bind_read, Hterm, Ht.
  cbn [negb andb SearchBot.hasText text_ToString].
  destruct (String.eqb_spec text ""); [contradiction |]. cbn [negb].
  unfold SearchBot.setTerm. unfold bind at 1. rewrite bind_read. unfold write.
  rewrite sendMessage_run. reflexivity.
Qed.

(** A search term stored, or no text: the location rules apply. *)
Lemma search_coordinates env message (st : gmap Z (option string)) latitude longitude :
  msg_text message <> Some "/start" ->
  negb (Js.truthy (SearchBot.searchTermOf st (msg_chat_id message)))
    && SearchBot.hasText (msg_text message) = false ->
  coordinatesOf message = Some (latitude, longitude) ->
  SearchBot.handleMessage env message st =
  SearchBot.handleLocation env (msg_chat_id message) latitude longitude st.
Proof.
  intros Hs Hfirst Hc. unfold SearchBot.handleMessage.
  rewrite decide_False by exact Hs. rewrite bind_read, Hfirst.
  unfold coordinatesOf in Hc. destruct (msg_location message) as [[lat lon]|].
  - now injection Hc as <- <-.
  - apply coordinates_text_hasText in Hc as (-> & -> & ->). reflexivity.
Qed.

Lemma amusement_start env message (st : unit) :
  msg_text message = Some "/start" ->
  AmusementBot.handleMessage env message st =
  (sent env (msg_chat_id message) AmusementBot.greeting, st,
   [TelegramSend (msg_chat_id message) AmusementBot.greeting]).
Proof.
  intros H. unfold AmusementBot.handleMessage. rewrite decide_True by exact H.
  now rewrite sendMessage_run.
Qed.

Lemma amusement_coordinates env message (st : unit) latitude longitude :
  msg_text message <> Some "/start" ->
  coordinatesOf message = Some (latitude, longitude) ->
  AmusementBot.handleMessage env message st =
  AmusementBot.handleLocation env (msg_chat_id message) latitude longitude st.
Proof.
  intros Hs Hc. unfold AmusementBot.handleMessage.
  rewrite decide_False by exact Hs.
  unfold coordinatesOf in Hc. destruct (msg_location message) as [[lat lon]|].
  - now injection Hc as <- <-.
  - apply coordinates_text_hasText in Hc as (H1 & -> & ->).
    change AmusementBot.hasText with SearchBot.hasText. now rewrite H1.
Qed.

Lemma amusement_other env message (st : unit) :
  msg_text message <> Some "/start" ->
  coordinatesOf message = None ->
  AmusementBot.handleMessage env message st =
  (sent env (msg_chat_id message) formatHint, st,
   [TelegramSend (msg_chat_id message) formatHint]).
Proof.
  intros Hs Hc. unfold AmusementBot.handleMessage.
  rewrite decide_False by exact Hs.
  unfold coordinatesOf in Hc. destruct (msg_location message) as [[lat lon]|];
    [discriminate |].
  change AmusementBot.hasText with SearchBot.hasText.
  rewrite (not_coordinates_text _ Hc). now rewrite sendMessage_run.
Qed.

End VariantDispatch.

(** C2, as the code has it.  The Dispatcher of [index.mjs] tries its rules
    in the order [/start], then a location payload or a text the Coordinate
    Parser accepts, then the classifier, and a rule that applies preempts
    the later ones.  The Dispatcher of [bot.mjs] tries [/start], then the
    coordinates, and has no classifier.  In the search-term variant [/start]
    comes first, but a text that arrives while no search term is stored is
    taken as the search term before the location rules are tried. *)
Theorem dispatcher_precedence env message
    (st : gmap Z Index.UserState) (terms : gmap Z (option string)) :
  let chatId := msg_chat_id message in
  ((msg_text message = Some "/start" ->
    Index.handleMessage env message st =
    (sent env chatId Index.greeting, <[chatId := Index.idle]> st,
     [TelegramSend chatId Index.greeting])) /\
   (forall latitude longitude,
    msg_text message <> Some "/start" ->
    coordinatesOf message = Some (latitude, longitude) ->
    Index.handleMessage env message st =
    if Index.isAwaiting st chatId then
      Index.handleLocation env chatId latitude longitude (Index.storedQuery st chatId) st
    else
      (sent env chatId (thanksFor message), st,
       [TelegramSend chatId (thanksFor message)])) /\
   (forall text,
    msg_text message = Some text -> text <> "/start" ->
    coordinatesOf message = None ->
    Index.handleMessage env message st =
    if checkIfLocationBased text then
      (sent env chatId askLocation,
       <[chatId := {| Index.awaitingLocation := true;
                      Index.query := JsString.trim text |}]> st,
       [TelegramSend chatId askLocation])
    else
      match summarizerAnswer env text with
      | Ok response =>
          (sent env chatId response, st,
           [ChatCompletion (summarizerExchange text); TelegramSend chatId response])
      | Throw e => (Throw e, st, [ChatCompletion (summarizerExchange text)])
      end)) /\
  ((msg_text message = Some "/start" ->
    AmusementBot.handleMessage env message tt =
    (sent env chatId AmusementBot.greeting, tt,
     [TelegramSend chatId AmusementBot.greeting])) /\
   (forall latitude longitude,
    msg_text message <> Some "/start" ->
    coordinatesOf message = Some (latitude, longitude) ->
    AmusementBot.handleMessage env message tt =
    AmusementBot.handleLocation env chatId latitude longitude tt) /\
   (msg_text message <> Some "/start" ->
    coordinatesOf message = None ->
    AmusementBot.handleMessage env message tt =
    (sent env chatId formatHint, tt, [TelegramSend chatId formatHint]))) /\
  ((msg_text message = Some "/start" ->
    SearchBot.handleMessage env message terms =
    (sent env chatId SearchBot.greeting, <[chatId := None]> terms,
     [TelegramSend chatId SearchBot.greeting])) /\
   (forall text,
    msg_text message = Some text -> text <> "/start" -> text <> "" ->
    Js.truthy (SearchBot.searchTermOf terms chatId) = false ->
    SearchBot.handleMessage env message terms =
    (sent env chatId "Please share your location.",
     <[chatId := Some (JsString.trim text)]> terms,
     [TelegramSend chatId "Please share your location."])) /\
   (forall latitude longitude,
    msg_text message <> Some "/start" ->
    negb (Js.truthy (SearchBot.searchTermOf terms chatId))
      && SearchBot.hasText (msg_text message) = false ->
    coordinatesOf message = Some (latitude, longitude) ->
    SearchBot.handleMessage env message terms =
    SearchBot.handleLocation env chatId latitude longitude terms)).
Proof.
  intros chatId. subst chatId. repeat split.
  - apply DispatchFacts.handleMessage_start.
  - intros latitude longitude. apply DispatchFacts.handleMessage_coordinates.
  - intros text. apply DispatchFacts.handleMessage_text.
  - apply VariantDispatch.amusement_start.
  - intros latitude longitude. apply VariantDispatch.amusement_coordinates.
  - apply VariantDispatch.amusement_other.
  - apply VariantDispatch.search_start.
  - intros text. apply VariantDispatch.search_term_first.
  - intros latitude longitude. apply VariantDispatch.search_coordinates.
Qed.

(** A message that carries both a location and a text with a keyword is
    handled by the location rule; with the text [/start] it is handled by
    the first rule. *)
Lemma dispatcher_precedence_witness :
  let pizza := {| msg_chat_id := 7; msg_text := Some "pizza nearby";
                  msg_location := Some sample_location |} in
  let start := {| msg_chat_id := 7; msg_text := Some "/start";
                  msg_location := Some sample_location |} in
  checkIfLocationBased "pizza nearby" = true /\
  Index.handleMessage env_two_places pizza ∅ =
    (Ok tt, ∅, [TelegramSend 7 thanksLocation]) /\
  Index.handleMessage env_two_places start awaitingPizza =
    (Ok tt, <[7 := Index.idle]> awaitingPizza, [TelegramSend 7 Index.greeting]).
Proof.
  intros pizza start. split; [reflexivity |]. split.
  - apply (proj1 (proj2 (proj1 (dispatcher_precedence env_two_places pizza ∅ ∅)))
             (JNum (fst sample_location)) (JNum (snd sample_location))
             ltac:(discriminate) eq_refl).
  - apply (proj1 (proj1 (dispatcher_precedence env_two_places start awaitingPizza ∅))
             eq_refl).
Defined.

(** C2, as the specification words it, fails in the search-term variant:
    with no search term stored, a text the Coordinate Parser accepts is not
    handled as coordinates, it is stored as the search term. *)
Lemma search_variant_takes_coordinates_as_term :
  let message := textMessage "40.7,-74.0" in
  msg_text message <> Some "/start" /\
  coordinatesOf message =
    Some (JNum (fst sample_location), JNum (snd sample_location)) /\
  SearchBot.handleMessage env_two_places message ∅ =
    (Ok tt, {[ 7 := Some "40.7,-74.0" ]}, [TelegramSend 7 "Please share your location."]) /\
  SearchBot.handleMessage env_two_places message ∅ <>
    SearchBot.handleLocation env_two_places 7
      (JNum (fst sample_location)) (JNum (snd sample_location)) ∅.
Proof.
  cbv zeta. split; [discriminate |]. split; [reflexivity |]. split.
  - rewrite (VariantDispatch.search_term_first env_two_places
               (textMessage "40.7,-74.0") ∅ "40.7,-74.0"
               eq_refl ltac:(discriminate) ltac:(discriminate) eq_refl).
    reflexivity.
  - rewrite (VariantDispatch.search_term_first env_two_places
               (textMessage "40.7,-74.0") ∅ "40.7,-74.0"
               eq_refl ltac:(discriminate) ltac:(discriminate) eq_refl).
    intros H. apply (f_equal events_of) in H. vm_compute in H. discriminate H.
Qed.

(** * Further properties of the code *)

(** ** [index.mjs]: one turn of the Dispatcher in normal form *)

Module TurnFacts.
Import Index.

Lemma getNearbyPlaces_value env latitude longitude query (st : Store) :
  getNearbyPlaces env latitude longitude query st =
  (Ok (fetchResults (foursquare_get env
         {| req_ll := (latitude, longitude); req_radius := 5000;
            req_query := JStr query |})),
   st,
   [PlacesSearch {| req_ll := (latitude, longitude); req_radius := 5000;
                    req_query := JStr query |}]).
Proof. apply IndexFacts.getNearbyPlaces_run. Qed.

(** In [index.mjs] the emptiness test never throws on what the lookup
    returns. *)
Lemma noPlaces_total places : exists b, noPlaces places = Ok b.
Proof.
  unfold noPlaces. destruct places as [| |b|n|s|xs|fs]; cbn; eauto.
  destruct b; cbn; eauto.
  destruct n as [|neg|neg m e]; cbn; eauto. destruct (m =? 0)%N; cbn; eauto.
  destruct (String.eqb s ""); cbn; eauto.
Qed.

Lemma handleLocation_normal env chatId latitude longitude query (st : Store) :
  let req := {| req_ll := (latitude, longitude); req_radius := 5000;
                req_query := JStr query |} in
  let places := fetchResults (foursquare_get env req) in
  handleLocation env chatId latitude longitude query st =
  match noPlaces places with
  | Throw e => (Throw e, st, [PlacesSearch req])
  | Ok true =>
      (sent env chatId (notFound query), st,
       [PlacesSearch req; TelegramSend chatId (notFound query)])
  | Ok false =>
      match array_map (fun place => Js.get place "name") places with
      | Throw e => (Throw e, st, [PlacesSearch req])
      | Ok names =>
          let prompt := placesPrompt env names in
          match summarizerAnswer env prompt with
          | Throw e =>
              (Throw e, st, [PlacesSearch req; ChatCompletion (summarizerExchange prompt)])
          | Ok suggestions =>
              (sent env chatId suggestions,
               match telegram_post env chatId suggestions with
               | None => <[chatId := idle]> st
               | Some _ => st
               end,
               [PlacesSearch req; ChatCompletion (summarizerExchange prompt);
                TelegramSend chatId suggestions])
          end
      end
  end.
Proof.
  intros req places.
  assert (Hp : result_of (getNearbyPlaces env latitude longitude query st) = Ok places)
    by now rewrite getNearbyPlaces_value.
  rewrite (IndexFacts.handleLocation_run _ _ _ _ _ _ _ Hp). fold req.
  destruct (noPlaces places) as [[|]|e]; try reflexivity.
  rewrite IndexFacts.getSuggestionsFromGPT3_run.
  destruct (array_map _ places) as [names|e]; [| reflexivity].
  cbv zeta. destruct (summarizerAnswer env (placesPrompt env names)) as [suggestions|e];
    [| reflexivity].
  unfold sent. now destruct (telegram_post env chatId suggestions).
Qed.

(** A message with neither text nor location: [userText.toLowerCase()]
    throws on [undefined]. *)
Lemma handleMessage_no_text env message (st : Store) :
  msg_text message = None -> msg_location message = None ->
  handleMessage env message st = (Throw TypeError, st, []).
Proof.
  intros Ht Hl. unfold handleMessage. rewrite Ht, Hl.
  rewrite decide_False by discriminate. reflexivity.
Qed.

Lemma coordinatesOf_none_text message :
  coordinatesOf message = None -> msg_location message = None.
Proof.
  unfold coordinatesOf. now destruct (msg_location message) as [[a b]|].
Qed.

End TurnFacts.

(** Splits a turn of [Index.handleMessage] along the rules of the
    Dispatcher and rewrites every case to its normal form. *)
Ltac turn_cases env message st :=
  let Hs := fresh "Hstart" in
  let Hc := fresh "Hcoord" in
  let Ht := fresh "Htext" in
  let Ha := fresh "Hawait" in
  destruct (decide (msg_text message = Some "/start")) as [Hs|Hs];
  [ rewrite (DispatchFacts.handleMessage_start env message st Hs)
  | destruct (coordinatesOf message) as [[? ?]|] eqn:Hc;
    [ rewrite (DispatchFacts.handleMessage_coordinates env message st _ _ Hs Hc);
      destruct (Index.isAwaiting st (msg_chat_id message)) eqn:Ha;
      [ rewrite TurnFacts.handleLocation_normal; cbv zeta;
        destruct (Index.noPlaces _) as [[|]|?];
        [ | destruct (array_map _ _) as [?|?];
            [ destruct (summarizerAnswer env _) as [?|?] | ] | ]
      | ]
    | destruct (msg_text message) as [?|] eqn:Ht;
      [ rewrite (DispatchFacts.handleMessage_text env message st _ Ht
                   ltac:(congruence) Hc);
        destruct (checkIfLocationBased _) eqn:?;
        [ | destruct (summarizerAnswer env _) as [?|?] ]
      | rewrite (TurnFacts.handleMessage_no_text env message st Ht
                   (TurnFacts.coordinatesOf_none_text message Hc)) ] ] ].

(** X1. A turn leaves the entries of all other chats as they were. *)
Theorem turn_touches_only_its_chat env message (st : gmap Z Index.UserState) (c : Z) :
  c <> msg_chat_id message ->
  store_of (Index.handleMessage env message st) !! c = st !! c.
Proof.
  intros Hc. turn_cases env message st; unfold store_of; cbn [fst snd];
    try reflexivity; try (now apply lookup_insert_ne).
  destruct (telegram_post env _ _); [reflexivity | now apply lookup_insert_ne].
Qed.

Lemma turn_touches_only_its_chat_witness :
  store_of (Index.handleMessage env_two_places locationMessage awaitingPizza) !! 8
  = awaitingPizza !! 8.
Proof.
  apply (turn_touches_only_its_chat env_two_places locationMessage awaitingPizza 8).
  discriminate.
Defined.

(** X2. Whatever the services answer, a turn sends at most one reply, and
    only to the chat of the message; it makes at most one places search and
    at most one completion request, and that request is an exchange of the
    Summarizer (system instruction, one user message, 150 tokens). *)
Theorem turn_outbound_calls env message (st : gmap Z Index.UserState) :
  let evs := events_of (Index.handleMessage env message st) in
  Forall (addressed_to (msg_chat_id message)) evs /\
  Forall is_exchange evs /\
  (length (List.filter is_reply evs) <= 1)%nat /\
  (length (List.filter is_search evs) <= 1)%nat /\
  (length (List.filter is_completion evs) <= 1)%nat /\
  (length evs <= 3)%nat.
Proof.
  cbv zeta. turn_cases env message st; unfold events_of; cbn [snd];
    (split; [repeat constructor |]);
    (split; [repeat constructor; cbn; eauto |]);
    cbn; lia.
Qed.

(** X3. Places Lookup is called only for a chat that is awaiting a
    location and only for a message that carries coordinates; the request
    then holds these coordinates, the stored query and the radius 5000. *)
Theorem search_only_when_awaiting env message (st : gmap Z Index.UserState) req :
  In (PlacesSearch req) (events_of (Index.handleMessage env message st)) ->
  Index.isAwaiting st (msg_chat_id message) = true /\
  msg_text message <> Some "/start" /\
  coordinatesOf message = Some (req_ll req) /\
  req_query req = JStr (Index.storedQuery st (msg_chat_id message)) /\
  req_radius req = 5000.
Proof.
  turn_cases env message st; unfold events_of; cbn [snd In];
    intros H; try contradiction;
    decompose [or] H; clear H; try discriminate; try contradiction;
    match goal with
    | E : PlacesSearch _ = PlacesSearch _ |- _ => injection E as <-
    end; cbn; auto.
Qed.

Lemma search_only_when_awaiting_witness :
  Index.isAwaiting awaitingPizza 7 = true /\
  coordinatesOf locationMessage =
    Some (JNum (fst sample_location), JNum (snd sample_location)).
Proof.
  pose proof (search_only_when_awaiting env_two_places locationMessage awaitingPizza
                {| req_ll := (JNum (fst sample_location), JNum (snd sample_location));
                   req_radius := 5000; req_query := JStr "pizza nearby" |}
                ltac:(left; reflexivity)) as (H1 & _ & H2 & _).
  exact (conj H1 H2).
Defined.

(** ** The classifier and white space *)

Module ClassifierFacts.

Lemma toLowerCase_app s t :
  JsString.toLowerCase (s +:+ t) = JsString.toLowerCase s +:+ JsString.toLowerCase t.
Proof. induction s as [|c s IH]; cbn; [reflexivity | now rewrite IH]. Qed.
















End ClassifierFacts.



(** X5. The classifier is monotone in the text: once a text is
    location-seeking, it stays so whatever is written before and after
    it. *)
Theorem classifier_monotone (pre s post : string) :
  checkIfLocationBased s = true ->
  checkIfLocationBased (pre +:+ s +:+ post) = true.
Proof.
  unfold checkIfLocationBased. rewrite !existsb_exists.
  intros (kw & Hin & H). exists kw. split; [exact Hin |].
  apply includes_iff in H as (a & b & E). apply includes_iff.
  rewrite !ClassifierFacts.toLowerCase_app, E.
  exists (JsString.toLowerCase pre +:+ a), (b +:+ JsString.toLowerCase post).
  now rewrite !append_assoc.
Qed.

Lemma classifier_monotone_witness :
  checkIfLocationBased "Pizza Place" = true /\
  checkIfLocationBased ("Is there a " +:+ "Pizza Place" +:+ " open now?") = true.
Proof.
  split; [reflexivity |].
  apply (classifier_monotone "Is there a " "Pizza Place" " open now?"). reflexivity.
Defined.

(** X6. The keyword ["nearby"] is redundant: every text that contains it
    contains ["near"], so the classifier decides the same with the five
    other keywords alone. *)
Theorem nearby_is_redundant (s : string) :
  checkIfLocationBased s =
  existsb (fun keyword => JsString.includes (JsString.toLowerCase s) keyword)
          keywordsWithoutNearby.
Proof.
  unfold checkIfLocationBased, locationKeywords, keywordsWithoutNearby.
  cbn [existsb].
  destruct (JsString.includes (JsString.toLowerCase s) "nearby") eqn:E;
    [| reflexivity].
  apply includes_iff in E as (a & b & E).
  assert (H : JsString.includes (JsString.toLowerCase s) "near" = true).
  { apply includes_iff. exists a, ("by" +:+ b). rewrite E. reflexivity. }
  rewrite H. cbn. now rewrite !orb_true_r.
Qed.

(** ** Reachable stores of [index.mjs] *)

Module StoreFacts.
Import Index.





End StoreFacts.



(** X8. A location-seeking text followed by coordinates: the first turn
    stores the trimmed text (without the white space, of the ASCII range
    or beyond it, at its ends) as the pending query, the second turn searches
    with exactly that query around the coordinates it received and, when
    places are found, summarized and the reply delivered, leaves the chat
    Idle. *)
Theorem query_then_location env1 env2 (st : gmap Z Index.UserState)
    text second latitude longitude :
  let chatId := msg_chat_id second in
  let first := {| msg_chat_id := chatId; msg_text := Some text;
                  msg_location := None |} in
  let st1 := store_of (Index.handleMessage env1 first st) in
  let after := Index.handleMessage env2 second st1 in
  let req := {| req_ll := (latitude, longitude); req_radius := 5000;
                req_query := JStr (JsString.trim text) |} in
  text <> "/start" -> isValidCoordinates text = false ->
  checkIfLocationBased text = true ->
  msg_text second <> Some "/start" ->
  coordinatesOf second = Some (latitude, longitude) ->
  st1 !! chatId =
    Some {| Index.awaitingLocation := true; Index.query := JsString.trim text |} /\
  unicode_trimmed (JsString.trim text) /\
  (exists rest, events_of after = PlacesSearch req :: rest) /\
  (forall names suggestions,
     array_map (fun place => Js.get place "name") (fetchResults (foursquare_get env2 req))
       = Ok names ->
     Index.noPlaces (fetchResults (foursquare_get env2 req)) = Ok false ->
     summarizerAnswer env2 (Index.placesPrompt env2 names) = Ok suggestions ->
     telegram_post env2 chatId suggestions = None ->
     List.filter is_reply (events_of after) = [TelegramSend chatId suggestions] /\
     store_of after !! chatId = Some Index.idle).
Proof.
  intros chatId first st1 after req Hs Hv Hcls Hs2 Hc2.
  assert (Hc1 : coordinatesOf first = None).
  { unfold coordinatesOf, parseCoordinates.
    cbn [first msg_location msg_text text_ToString]. now rewrite Hv. }
  assert (Hst1 : st1 = <[chatId := {| Index.awaitingLocation := true;
                                      Index.query := JsString.trim text |}]> st).
  { subst st1. rewrite (DispatchFacts.handleMessage_text env1 first st text eq_refl Hs Hc1).
    now rewrite Hcls. }
  assert (Hlook : st1 !! chatId =
                  Some {| Index.awaitingLocation := true;
                          Index.query := JsString.trim text |})
    by (rewrite Hst1; apply lookup_insert_eq).
  destruct (DispatchFacts.awaiting_lookup st1 chatId _ Hlook) as [Haw Hq].
  split; [exact Hlook |].
  split; [apply SummarizerFacts.trim_spec |].
  subst after.
  rewrite (DispatchFacts.handleMessage_coordinates env2 second st1 _ _ Hs2 Hc2).
  fold chatId. rewrite Haw, Hq, TurnFacts.handleLocation_normal. cbv zeta. fold req.
  split.
  - destruct (Index.noPlaces _) as [[|]|e]; [eexists; reflexivity | | eexists; reflexivity].
    destruct (array_map _ _) as [names|e]; [| eexists; reflexivity].
    destruct (summarizerAnswer env2 _); eexists; reflexivity.
  - intros names suggestions Hn Hno Hsum Hsend.
    rewrite Hno, Hn, Hsum, Hsend. unfold events_of, store_of; cbn [fst snd].
    split; [reflexivity | apply lookup_insert_eq].
Qed.

Lemma query_then_location_witness :
  let text := nbsp +:+ " pizza nearby" +:+ ideographic_space +:+ " " in
  let st1 := store_of (Index.handleMessage env_no_places (textMessage text) ∅) in
  st1 !! 7 = Some {| Index.awaitingLocation := true; Index.query := "pizza nearby" |} /\
  store_of (Index.handleMessage env_two_places locationMessage st1) !! 7
    = Some Index.idle.
Proof.
  intros text st1.
  pose proof (query_then_location env_no_places env_two_places ∅ text
                locationMessage (JNum (fst sample_location)) (JNum (snd sample_location))
                ltac:(discriminate) eq_refl eq_refl ltac:(discriminate) eq_refl)
    as (H1 & _ & _ & H3).
  split; [exact H1 |].
  exact (proj2 (H3 [JStr "Luigi"; JStr "Mario"] "Luigi is the best."
                   eq_refl eq_refl eq_refl eq_refl)).
Defined.

(** X9. A message with neither text nor location (a photo, a sticker):
    [index.mjs] throws a TypeError before it sends or stores anything, and
    the webhook answers 200 all the same; the two SDK variants reply with
    the format hint. *)
Theorem message_without_text_or_location env (chatId : Z)
    (st : gmap Z Index.UserState) (terms : gmap Z (option string)) :
  let message := {| msg_chat_id := chatId; msg_text := None; msg_location := None |} in
  Index.handleMessage env message st = (Throw TypeError, st, []) /\
  webhook Index.handleMessage env (Some message) st = (200, st, []) /\
  SearchBot.handleMessage env message terms =
    (sent env chatId formatHint, terms, [TelegramSend chatId formatHint]) /\
  AmusementBot.handleMessage env message tt =
    (sent env chatId formatHint, tt, [TelegramSend chatId formatHint]).
Proof.
  intros message.
  assert (H : Index.handleMessage env message st = (Throw TypeError, st, []))
    by now apply TurnFacts.handleMessage_no_text.
  split; [exact H |]. split; [cbn [webhook]; now rewrite H |]. split.
  - unfold SearchBot.handleMessage. rewrite decide_False by discriminate.
    rewrite bind_read. cbn [msg_text msg_location message SearchBot.hasText].
    rewrite andb_false_r. cbn [andb]. now rewrite sendMessage_run.
  - apply VariantDispatch.amusement_other; [discriminate | reflexivity].
Qed.

(** ** Malformed answers of the providers *)

Module MalformedFacts.

Lemma get_throws_TypeError v k e : Js.get v k = Throw e -> e = TypeError.
Proof. destruct v; cbn; congruence. Qed.

Lemma map_outcome_throw (f : jsval -> outcome jsval) l x :
  In x l -> f x = Throw TypeError ->
  (forall y e, f y = Throw e -> e = TypeError) ->
  map_outcome f l = Throw TypeError.
Proof.
  intros Hin Hx Hf. induction l as [|y l IH]; [contradiction |].
  cbn [map_outcome]. destruct (f y) as [v|e] eqn:Ey.
  - destruct Hin as [-> | Hin]; [congruence |]. now rewrite (IH Hin).
  - now rewrite (Hf y e Ey).
Qed.

Lemma array_map_optional places names :
  Forall2 named_or_not places names ->
  array_map (fun place => Js.get place "name") (JArr places) =
  Ok (map (fun name => match name with Some n => JStr n | None => JUndefined end) names).
Proof.
  unfold array_map. induction 1 as [|p n ps ns Hp _ IH]; [reflexivity |].
  cbn [map_outcome map]. unfold named_or_not in Hp. now rewrite Hp, IH.
Qed.

End MalformedFacts.

(** X10. When the provider answers with a [results] field that is a
    non-empty string, a non-zero number or [true], [index.mjs] takes it for
    places: the turn ends in a TypeError after the search, no reply is sent
    (not even the not-found message) and the chat keeps awaiting. *)
Theorem results_not_a_list env message (st : gmap Z Index.UserState)
    q latitude longitude data results :
  let chatId := msg_chat_id message in
  let req := {| req_ll := (latitude, longitude); req_radius := 5000;
                req_query := JStr q |} in
  st !! chatId = Some {| Index.awaitingLocation := true; Index.query := q |} ->
  msg_text message <> Some "/start" ->
  coordinatesOf message = Some (latitude, longitude) ->
  foursquare_get env req = JsonBody data ->
  Js.get data "results" = Ok results ->
  Js.truthy results = true ->
  match results with JArr _ | JObj _ => False | _ => True end ->
  Index.handleMessage env message st = (Throw TypeError, st, [PlacesSearch req]).
Proof.
  intros chatId req Hst Hs Hc Hreply Hget Htruthy Hshape.
  destruct (DispatchFacts.awaiting_lookup st chatId q Hst) as [Haw Hq].
  rewrite (DispatchFacts.handleMessage_coordinates env message st _ _ Hs Hc).
  fold chatId. rewrite Haw, Hq, TurnFacts.handleLocation_normal. cbv zeta. fold req.
  assert (Hdata : Js.truthy data = true).
  { destruct data; cbn in Hget; try discriminate Hget; try reflexivity;
      injection Hget as <-; try discriminate Htruthy;
      destruct (String.eqb _ _) in Htruthy; discriminate Htruthy. }
  unfold fetchResults. rewrite Hreply, Hget, Hdata, Htruthy. cbn [andb].
  destruct results as [| |b|n|s|xs|fs]; try contradiction; try discriminate Htruthy.
  - cbn in Htruthy. subst b. reflexivity.
  - destruct n as [|neg|neg m e]; [discriminate Htruthy | reflexivity |].
    cbn in Htruthy. unfold Index.noPlaces. cbn [Js.truthy]. now rewrite Htruthy.
  - destruct s as [|c s]; [discriminate Htruthy | reflexivity].
Qed.

Lemma results_not_a_list_witness :
  let env := sample_env (JsonBody (JObj [("results", JStr "none")]))
                        (Throw ApiError) (Throw ApiError) in
  Index.handleMessage env locationMessage awaitingPizza =
  (Throw TypeError, awaitingPizza,
   [PlacesSearch {| req_ll := (JNum (fst sample_location), JNum (snd sample_location));
                    req_radius := 5000; req_query := JStr "pizza nearby" |}]).
Proof.
  intros env.
  apply (results_not_a_list env locationMessage awaitingPizza "pizza nearby"
           (JNum (fst sample_location)) (JNum (snd sample_location))
           (JObj [("results", JStr "none")]) (JStr "none")
           eq_refl ltac:(discriminate) eq_refl eq_refl eq_refl eq_refl I).
Defined.

(** X11. A place that is [null] (or [undefined]) makes
    [getSuggestionsFromGPT3] throw a TypeError while it collects the names:
    no request reaches the completion provider. *)
Theorem null_place_fails_before_request env (st : gmap Z Index.UserState)
    (places : list jsval) :
  In JNull places \/ In JUndefined places ->
  Index.getSuggestionsFromGPT3 env (JArr places) st = (Throw TypeError, st, []).
Proof.
  intros H. rewrite IndexFacts.getSuggestionsFromGPT3_run. unfold array_map.
  assert (E : map_outcome (fun place => Js.get place "name") places = Throw TypeError).
  { destruct H as [H | H];
      apply (MalformedFacts.map_outcome_throw _ _ _ H); try reflexivity;
      intros y e; apply MalformedFacts.get_throws_TypeError. }
  now rewrite E.
Qed.

Lemma null_place_fails_before_request_witness :
  Index.getSuggestionsFromGPT3 env_two_places
    (JArr [sample_place "Luigi"; JNull]) awaitingPizza
  = (Throw TypeError, awaitingPizza, []).
Proof.
  apply (null_place_fails_before_request env_two_places awaitingPizza
           [sample_place "Luigi"; JNull]).
  left. right. left. reflexivity.
Defined.

(** X12. A place without a name still takes its position in the prompt:
    it contributes the empty string between the separators. *)
Theorem unnamed_places_prompt env (st : gmap Z Index.UserState)
    (places : list jsval) (names : list (option string)) :
  Forall2 named_or_not places names ->
  events_of (Index.getSuggestionsFromGPT3 env (JArr places) st) =
    [ChatCompletion
       (summarizerExchange
          ("Here are some nearby places: " +:+
           comma_joined (map (fun name => match name with Some n => n | None => "" end)
                             names) +:+
           ". Please suggest the best ones to visit."))].
Proof.
  intros Hn. rewrite IndexFacts.getSuggestionsFromGPT3_run.
  rewrite (MalformedFacts.array_map_optional _ _ Hn).
  unfold events_of; cbn [snd]. unfold Index.placesPrompt, Js.join.
  rewrite map_map, SummarizerFacts.join_comma_joined.
  rewrite (map_ext _ (fun name => match name with Some n => n | None => "" end));
    [reflexivity |].
  now intros [n|].
Qed.

Lemma unnamed_places_prompt_witness :
  events_of (Index.getSuggestionsFromGPT3 env_two_places
               (JArr [sample_place "Luigi"; JObj [("fsq_id", JStr "9")]; sample_place "Mario"])
               awaitingPizza) =
    [ChatCompletion
       (summarizerExchange
          "Here are some nearby places: Luigi, , Mario. Please suggest the best ones to visit.")].
Proof.
  apply (unnamed_places_prompt env_two_places awaitingPizza
           [sample_place "Luigi"; JObj [("fsq_id", JStr "9")]; sample_place "Mario"]
           [Some "Luigi"; None; Some "Mario"]).
  repeat constructor.
Defined.



(** X14. The Summarizer returns a text only when the provider answered
    and the first choice of the answer carries a string content, of which the
    text is the trimmed form, without the white space code points, of the
    ASCII range or beyond it, at its two ends; otherwise it fails with the
    error of the provider or with a TypeError. *)
Theorem summarizer_result env (prompt : string) (st : gmap Z Index.UserState) :
  match result_of (Index.getChatGPTResponse env prompt st) with
  | Ok reply =>
      exists response choices choice message content,
        openai_create env (summarizerExchange prompt) = Ok response /\
        Js.get response "choices" = Ok choices /\
        Js.first choices = Ok choice /\
        Js.get choice "message" = Ok message /\
        Js.get message "content" = Ok (JStr content) /\
        reply = JsString.trim content /\ unicode_trimmed reply
  | Throw e =>
      openai_create env (summarizerExchange prompt) = Throw e \/
      (e = TypeError /\ exists response,
         openai_create env (summarizerExchange prompt) = Ok response)
  end.
Proof.
  rewrite IndexFacts.getChatGPTResponse_run. unfold result_of; cbn [fst].
  unfold summarizerAnswer.
  destruct (openai_create env (summarizerExchange prompt)) as [response|e];
    [| now left].
  unfold first_choice_text.
  destruct (Js.get response "choices") as [choices|e] eqn:H1;
    [| right; split; [now apply MalformedFacts.get_throws_TypeError in H1 | eauto]].
  destruct (Js.first choices) as [choice|e] eqn:H2;
    [| right; split; [destruct choices; cbn in H2; congruence | eauto]].
  destruct (Js.get choice "message") as [message|e] eqn:H3;
    [| right; split; [now apply MalformedFacts.get_throws_TypeError in H3 | eauto]].
  destruct (Js.get message "content") as [content|e] eqn:H4;
    [| right; split; [now apply MalformedFacts.get_throws_TypeError in H4 | eauto]].
  destruct content; try (right; split; [reflexivity | eauto]).
  exists response, choices, choice, message, s.
  do 5 (split; [first [assumption | reflexivity] |]).
  split; [reflexivity | apply SummarizerFacts.trim_spec].
Qed.

(** ** The search-term variant in normal form *)

Module SearchFacts.
Import SearchBot.

Lemma search_getSuggestionsFromGPT3_run env places (st : Store) :
  getSuggestionsFromGPT3 env places st =
  match array_map (fun place => Js.get place "name") places with
  | Throw e => (Throw e, st, [])
  | Ok names =>
      (summarizerAnswer env (placesPrompt env names), st,
       [ChatCompletion (summarizerExchange (placesPrompt env names))])
  end.
Proof.
  unfold getSuggestionsFromGPT3.
  destruct (array_map _ places) as [names|e]; [| reflexivity].
  rewrite bind_lift_ok. unfold completions_create, summarizerAnswer.
  change {| req_model := "gpt-3.5-turbo";
            req_messages := [("system", systemInstruction);
                             ("user", placesPrompt env names)];
            req_max_tokens := 150 |} with (summarizerExchange (placesPrompt env names)).
  unfold bind, emit, lift, ret.
  destruct (openai_create env _) as [response|e]; [| reflexivity].
  now destruct (first_choice_text response).
Qed.

Lemma search_handleLocation_normal env chatId latitude longitude (st : Store) :
  let term := searchTermOf st chatId in
  let req := {| req_ll := (latitude, longitude); req_radius := 5000;
                req_query := term |} in
  let places := sdkResults (sdk_placeSearch env req) in
  handleLocation env chatId latitude longitude st =
  match Js.get places "length" with
  | Throw e => (Throw e, st, [PlacesSearch req])
  | Ok len =>
      if Js.is_zero len then
        (sent env chatId (notFound env term), st,
         [PlacesSearch req; TelegramSend chatId (notFound env term)])
      else
        match array_map (fun place => Js.get place "name") places with
        | Throw e => (Throw e, st, [PlacesSearch req])
        | Ok names =>
            let prompt := placesPrompt env names in
            match summarizerAnswer env prompt with
            | Throw e =>
                (Throw e, st,
                 [PlacesSearch req; ChatCompletion (summarizerExchange prompt)])
            | Ok suggestions =>
                (sent env chatId suggestions,
                 match telegram_post env chatId suggestions with
                 | None => <[chatId := None]> st
                 | Some _ => st
                 end,
                 [PlacesSearch req; ChatCompletion (summarizerExchange prompt);
                  TelegramSend chatId suggestions])
            end
        end
  end.
Proof.
  intros term req places. unfold handleLocation. rewrite bind_read. fold term.
  rewrite (bind_run _ _ _ _ _ _
             (VariantFacts.search_getNearbyPlaces_run env latitude longitude term st)).
  fold req places.
  destruct (Js.get places "length") as [len|e]; [| reflexivity].
  rewrite bind_lift_ok. destruct (Js.is_zero len).
  - rewrite sendMessage_run. reflexivity.
  - pose proof (search_getSuggestionsFromGPT3_run env places st) as HG.
    destruct (array_map _ places) as [names|e].
    + cbv zeta. destruct (summarizerAnswer env (placesPrompt env names)) as [suggestions|e].
      * rewrite (bind_run _ _ _ _ _ _ HG), bind_sendMessage.
        unfold setTerm. rewrite bind_read. unfold sent.
        now destruct (telegram_post env chatId suggestions).
      * now rewrite (bind_run_throw _ _ _ _ _ _ HG).
    + now rewrite (bind_run_throw _ _ _ _ _ _ HG).
Qed.

Lemma handleMessage_other env message (st : Store) :
  msg_text message <> Some "/start" ->
  negb (Js.truthy (searchTermOf st (msg_chat_id message)))
    && hasText (msg_text message) = false ->
  coordinatesOf message = None ->
  handleMessage env message st =
  (sent env (msg_chat_id message) formatHint, st,
   [TelegramSend (msg_chat_id message) formatHint]).
Proof.
  intros Hs Hfirst Hc. unfold handleMessage.
  rewrite decide_False by exact Hs. rewrite bind_read, Hfirst.
  unfold coordinatesOf in Hc. destruct (msg_location message) as [[lat lon]|];
    [discriminate |].
  rewrite (VariantDispatch.not_coordinates_text _ Hc). now rewrite sendMessage_run.
Qed.


End SearchFacts.

(** Splits a turn of [SearchBot.handleMessage] along its rules and
    rewrites every case to its normal form. *)
Ltac search_cases env message st :=
  let Hs := fresh "Hstart" in
  let Hf := fresh "Hfirst" in
  let Hc := fresh "Hcoord" in
  destruct (decide (msg_text message = Some "/start")) as [Hs|Hs];
  [ rewrite (VariantDispatch.search_start env message st Hs)
  | destruct (negb (Js.truthy (SearchBot.searchTermOf st (msg_chat_id message)))
              && SearchBot.hasText (msg_text message)) eqn:Hf;
    [ let Ht := fresh "Hterm" in
      let Hx := fresh "Htext" in
      apply andb_true_iff in Hf as [Ht Hx];
      apply negb_true_iff in Ht;
      destruct (msg_text message) as [?|] eqn:?; [| discriminate Hx];
      cbn [SearchBot.hasText] in Hx; apply negb_true_iff in Hx;
      apply String.eqb_neq in Hx;
      rewrite (VariantDispatch.search_term_first env message st _
                 ltac:(eassumption) ltac:(congruence) Hx Ht)
    | destruct (coordinatesOf message) as [[? ?]|] eqn:Hc;
      [ rewrite (VariantDispatch.search_coordinates env message st _ _ Hs Hf Hc);
        rewrite SearchFacts.search_handleLocation_normal; cbv zeta;
        destruct (Js.get _ "length") as [?|?];
        [ destruct (Js.is_zero _);
          [ | destruct (array_map _ _) as [?|?];
              [ destruct (summarizerAnswer env _) as [?|?] | ] ]
        | ]
      | rewrite (SearchFacts.handleMessage_other env message st Hs Hf Hc) ] ] ].

(** X15. In the search-term variant a turn leaves the search terms of all
    other chats as they were, sends at most one reply, to the chat of the
    message only, and makes at most one places search, with radius 5000. *)
Theorem search_turn_is_local env message (terms : gmap Z (option string)) :
  let after := SearchBot.handleMessage env message terms in
  (forall c, c <> msg_chat_id message -> store_of after !! c = terms !! c) /\
  Forall (addressed_to (msg_chat_id message)) (events_of after) /\
  (length (List.filter is_reply (events_of after)) <= 1)%nat /\
  (length (List.filter is_search (events_of after)) <= 1)%nat /\
  (forall req, In (PlacesSearch req) (events_of after) -> req_radius req = 5000).
Proof.
  cbv zeta. search_cases env message terms; unfold store_of, events_of; cbn [fst snd];
    (split; [intros c Hc; try reflexivity; try (now apply lookup_insert_ne);
             try (destruct (telegram_post env _ _);
                  [reflexivity | now apply lookup_insert_ne]) |]);
    (split; [repeat constructor |]);
    (split; [cbn; lia |]); (split; [cbn; lia |]);
    intros req Hin; cbn [In] in Hin; try contradiction;
    decompose [or] Hin; try discriminate; try contradiction;
    match goal with
    | E : PlacesSearch _ = PlacesSearch _ |- _ => now injection E as <-
    end.
Qed.

Lemma search_turn_is_local_witness :
  store_of (SearchBot.handleMessage env_two_places (textMessage "pizza") ∅) !! 8
  = (∅ : gmap Z (option string)) !! 8.
Proof.
  apply (proj1 (search_turn_is_local env_two_places (textMessage "pizza") ∅) 8).
  discriminate.
Defined.

(** X16. In the search-term variant a location that arrives while no
    term is stored is searched all the same: right after [/start] the query
    of the search is [null], for a chat never seen it is [undefined], and the
    not-found reply spells that word out. *)
Theorem location_without_search_term env0 env message
    (terms : gmap Z (option string)) latitude longitude :
  let chatId := msg_chat_id message in
  let start := {| msg_chat_id := chatId; msg_text := Some "/start";
                  msg_location := None |} in
  let terms1 := store_of (SearchBot.handleMessage env0 start terms) in
  let search (query : jsval) :=
    {| req_ll := (latitude, longitude); req_radius := 5000; req_query := query |} in
  msg_text message = None ->
  coordinatesOf message = Some (latitude, longitude) ->
  terms1 !! chatId = Some None /\
  (sdkResults (sdk_placeSearch env (search JNull)) = JArr [] ->
   SearchBot.handleMessage env message terms1 =
   (sent env chatId "I couldn't find any nearby null. Please try again later.",
    terms1,
    [PlacesSearch (search JNull);
     TelegramSend chatId "I couldn't find any nearby null. Please try again later."])) /\
  (terms !! chatId = None ->
   sdkResults (sdk_placeSearch env (search JUndefined)) = JArr [] ->
   SearchBot.handleMessage env message terms =
   (sent env chatId "I couldn't find any nearby undefined. Please try again later.",
    terms,
    [PlacesSearch (search JUndefined);
     TelegramSend chatId "I couldn't find any nearby undefined. Please try again later."])).
Proof.
  intros chatId start terms1 search Ht Hc.
  assert (Hterms1 : terms1 = <[chatId := None]> terms).
  { subst terms1. now rewrite (VariantDispatch.search_start env0 start terms eq_refl). }
  assert (Hrule : forall st, SearchBot.handleMessage env message st =
                             SearchBot.handleLocation env chatId latitude longitude st).
  { intros st. apply VariantDispatch.search_coordinates; [congruence | | exact Hc].
    rewrite Ht. cbn [SearchBot.hasText]. apply andb_false_r. }
  split; [rewrite Hterms1; apply lookup_insert_eq |]. split.
  - intros Hempty. rewrite Hrule, SearchFacts.search_handleLocation_normal. cbv zeta.
    assert (E : SearchBot.searchTermOf terms1 chatId = JNull).
    { unfold SearchBot.searchTermOf. rewrite Hterms1.
      now rewrite (lookup_insert_eq terms chatId None). }
    rewrite E. fold (search JNull). rewrite Hempty. reflexivity.
  - intros Hfresh Hempty. rewrite Hrule, SearchFacts.search_handleLocation_normal. cbv zeta.
    assert (E : SearchBot.searchTermOf terms chatId = JUndefined).
    { unfold SearchBot.searchTermOf. now rewrite Hfresh. }
    rewrite E. fold (search JUndefined). rewrite Hempty. reflexivity.
Qed.

Lemma location_without_search_term_witness :
  let terms1 := store_of (SearchBot.handleMessage env_no_places
                            (textMessage "/start") {[ 7 := Some "pizza" ]}) in
  List.filter is_reply
    (events_of (SearchBot.handleMessage env_no_places locationMessage terms1))
  = [TelegramSend 7 "I couldn't find any nearby null. Please try again later."].
Proof.
  intros terms1.
  pose proof (location_without_search_term env_no_places env_no_places locationMessage
                {[ 7 := Some "pizza" ]}
                (JNum (fst sample_location)) (JNum (snd sample_location))
                eq_refl eq_refl) as (_ & H & _).
  change (store_of (SearchBot.handleMessage env_no_places
            {| msg_chat_id := msg_chat_id locationMessage;
               msg_text := Some "/start"; msg_location := None |}
            {[ 7 := Some "pizza" ]})) with terms1 in H.
  rewrite (H eq_refl). reflexivity.
Defined.

(** X17. In the search-term variant a stored term is used and kept until
    a search has succeeded: coordinates start a search for that term; when
    nothing is found the term stays, when the places are summarized and the
    reply delivered the term is reset to [null]; a text that is not
    coordinates gets the format hint and does not replace the term. *)
Theorem stored_term_is_sticky env message (terms : gmap Z (option string))
    (term : string) :
  let chatId := msg_chat_id message in
  terms !! chatId = Some (Some term) -> term <> "" ->
  msg_text message <> Some "/start" ->
  (coordinatesOf message = None ->
   SearchBot.handleMessage env message terms =
   (sent env chatId formatHint, terms, [TelegramSend chatId formatHint])) /\
  (forall latitude longitude,
   coordinatesOf message = Some (latitude, longitude) ->
   let req := {| req_ll := (latitude, longitude); req_radius := 5000;
                 req_query := JStr term |} in
   let places := sdkResults (sdk_placeSearch env req) in
   (places = JArr [] ->
    SearchBot.handleMessage env message terms =
    (sent env chatId ("I couldn't find any nearby " +:+ term +:+ ". Please try again later."),
     terms,
     [PlacesSearch req;
      TelegramSend chatId
        ("I couldn't find any nearby " +:+ term +:+ ". Please try again later.")])) /\
   (forall p ps names suggestions,
    places = JArr (p :: ps) ->
    array_map (fun place => Js.get place "name") places = Ok names ->
    summarizerAnswer env (SearchBot.placesPrompt env names) = Ok suggestions ->
    telegram_post env chatId suggestions = None ->
    SearchBot.handleMessage env message terms =
    (Ok tt, <[chatId := None]> terms,
     [PlacesSearch req;
      ChatCompletion (summarizerExchange (SearchBot.placesPrompt env names));
      TelegramSend chatId suggestions]))).
Proof.
  intros chatId Hterm Hne Hs.
  assert (E : SearchBot.searchTermOf terms chatId = JStr term)
    by (unfold SearchBot.searchTermOf; now rewrite Hterm).
  assert (Hfirst : negb (Js.truthy (SearchBot.searchTermOf terms chatId))
                   && SearchBot.hasText (msg_text message) = false).
  { rewrite E. cbn [Js.truthy]. destruct (String.eqb_spec term ""); [contradiction |].
    reflexivity. }
  split; [intros Hc; now apply SearchFacts.handleMessage_other |].
  intros latitude longitude Hc req places.
  rewrite (VariantDispatch.search_coordinates env message terms _ _ Hs Hfirst Hc).
  rewrite SearchFacts.search_handleLocation_normal. cbv zeta. fold chatId.
  rewrite E. fold req. fold places. split.
  - intros ->. reflexivity.
  - intros p ps names suggestions -> Hn Hsum Hsend.
    rewrite Hn, Hsum, Hsend. unfold sent. now rewrite Hsend.
Qed.

Lemma stored_term_is_sticky_witness :
  SearchBot.handleMessage env_two_places (textMessage "sushi") termPizza
  = (Ok tt, termPizza, [TelegramSend 7 formatHint]).
Proof.
  assert (H : termPizza !! msg_chat_id (textMessage "sushi") = Some (Some "pizza"))
    by (vm_compute; reflexivity).
  apply (proj1 (stored_term_is_sticky env_two_places (textMessage "sushi")
                  termPizza "pizza" H ltac:(discriminate) ltac:(discriminate))).
  reflexivity.
Defined.

(** ** The amusement-park variant in normal form *)

Module AmusementFacts.
Import AmusementBot.

Lemma amusement_getSuggestionsFromGPT3_run env parks (st : Store) :
  getSuggestionsFromGPT3 env parks st =
  match array_map (fun amusement => Js.get amusement "name") parks with
  | Throw e => (Throw e, st, [])
  | Ok names =>
      (summarizerAnswer env (parksPrompt env names), st,
       [ChatCompletion (summarizerExchange (parksPrompt env names))])
  end.
Proof.
  unfold getSuggestionsFromGPT3.
  destruct (array_map _ parks) as [names|e]; [| reflexivity].
  rewrite bind_lift_ok. unfold completions_create, summarizerAnswer.
  cbv zeta. fold (parksPrompt env names).
  change {| req_model := "gpt-3.5-turbo";
            req_messages := [("system", systemInstruction);
                             ("user", parksPrompt env names)];
            req_max_tokens := 150 |} with (summarizerExchange (parksPrompt env names)).
  unfold bind, emit, lift, ret.
  destruct (openai_create env _) as [response|e]; [| reflexivity].
  now destruct (first_choice_text response).
Qed.

Lemma amusement_handleLocation_normal env chatId latitude longitude (st : Store) :
  let req := {| req_ll := (latitude, longitude); req_radius := 100000;
                req_query := JStr "amusement" |} in
  let parks := sdkResults (sdk_placeSearch env req) in
  handleLocation env chatId latitude longitude st =
  match Js.get parks "length" with
  | Throw e => (Throw e, st, [PlacesSearch req])
  | Ok len =>
      if Js.is_zero len then
        (sent env chatId "I couldn't find any nearby tourist spots. Please try again later.",
         st,
         [PlacesSearch req;
          TelegramSend chatId
            "I couldn't find any nearby tourist spots. Please try again later."])
      else
        match array_map (fun amusement => Js.get amusement "name") parks with
        | Throw e => (Throw e, st, [PlacesSearch req])
        | Ok names =>
            match summarizerAnswer env (parksPrompt env names) with
            | Throw e =>
                (Throw e, st,
                 [PlacesSearch req;
                  ChatCompletion (summarizerExchange (parksPrompt env names))])
            | Ok suggestions =>
                (sent env chatId suggestions, st,
                 [PlacesSearch req;
                  ChatCompletion (summarizerExchange (parksPrompt env names));
                  TelegramSend chatId suggestions])
            end
        end
  end.
Proof.
  intros req parks. unfold handleLocation.
  rewrite (bind_run _ _ _ _ _ _
             (VariantFacts.amusement_getNearbyAmusementParks_run env latitude longitude st)).
  fold req parks.
  destruct (Js.get parks "length") as [len|e]; [| reflexivity].
  rewrite bind_lift_ok. destruct (Js.is_zero len).
  - rewrite sendMessage_run. reflexivity.
  - pose proof (amusement_getSuggestionsFromGPT3_run env parks st) as HG.
    destruct (array_map _ parks) as [names|e].
    + destruct (summarizerAnswer env (parksPrompt env names)) as [suggestions|e].
      * rewrite (bind_run _ _ _ _ _ _ HG), sendMessage_run. reflexivity.
      * now rewrite (bind_run_throw _ _ _ _ _ _ HG).
    + now rewrite (bind_run_throw _ _ _ _ _ _ HG).
Qed.

End AmusementFacts.

(** X18. When the SDK answers with a [data] that has no [results], the
    lookup of the SDK variants returns [undefined] and [handleLocation]
    throws a TypeError on its length: the search was made, nothing is sent,
    and the search-term variant keeps its term. *)
Theorem sdk_answer_without_results env message (terms : gmap Z (option string))
    latitude longitude :
  let chatId := msg_chat_id message in
  let req := {| req_ll := (latitude, longitude); req_radius := 5000;
                req_query := SearchBot.searchTermOf terms chatId |} in
  let req' := {| req_ll := (latitude, longitude); req_radius := 100000;
                 req_query := JStr "amusement" |} in
  msg_text message <> Some "/start" ->
  coordinatesOf message = Some (latitude, longitude) ->
  (forall answer data,
   negb (Js.truthy (SearchBot.searchTermOf terms chatId))
     && SearchBot.hasText (msg_text message) = false ->
   sdk_placeSearch env req = Ok answer ->
   Js.get answer "data" = Ok data ->
   Js.get data "results" = Ok JUndefined ->
   SearchBot.handleMessage env message terms =
   (Throw TypeError, terms, [PlacesSearch req])) /\
  (forall answer data,
   sdk_placeSearch env req' = Ok answer ->
   Js.get answer "data" = Ok data ->
   Js.get data "results" = Ok JUndefined ->
   AmusementBot.handleMessage env message tt =
   (Throw TypeError, tt, [PlacesSearch req'])).
Proof.
  intros chatId req req' Hs Hc. split.
  - intros answer data Hfirst Hsdk Hdata Hres.
    rewrite (VariantDispatch.search_coordinates env message terms _ _ Hs Hfirst Hc).
    rewrite SearchFacts.search_handleLocation_normal. cbv zeta. fold chatId req.
    rewrite Hsdk. cbn [sdkResults]. rewrite Hdata, Hres. reflexivity.
  - intros answer data Hsdk Hdata Hres.
    rewrite (VariantDispatch.amusement_coordinates env message tt _ _ Hs Hc).
    rewrite AmusementFacts.amusement_handleLocation_normal. cbv zeta. fold req'.
    rewrite Hsdk. cbn [sdkResults]. rewrite Hdata, Hres. reflexivity.
Qed.

Lemma sdk_answer_without_results_witness :
  let env := sample_env NetworkFailure (Ok (JObj [("data", JObj [("context", JNull)])]))
                        (Throw ApiError) in
  AmusementBot.handleMessage env locationMessage tt =
  (Throw TypeError, tt,
   [PlacesSearch {| req_ll := (JNum (fst sample_location), JNum (snd sample_location));
                    req_radius := 100000; req_query := JStr "amusement" |}]).
Proof.
  intros env.
  apply (proj2 (sdk_answer_without_results env locationMessage ∅
                  (JNum (fst sample_location)) (JNum (snd sample_location))
                  ltac:(discriminate) eq_refl)
               (JObj [("data", JObj [("context", JNull)])])
               (JObj [("context", JNull)]) eq_refl eq_refl eq_refl).
Defined.



(** X20. The amusement-park variant sends at most one reply per turn, to
    the chat of the message only, and searches at most once: always for
    ["amusement"] within 100000 meters of the coordinates of the message,
    whatever else the message says. *)
Theorem amusement_turn env message :
  let after := AmusementBot.handleMessage env message tt in
  Forall (addressed_to (msg_chat_id message)) (events_of after) /\
  Forall is_exchange (events_of after) /\
  (length (List.filter is_reply (events_of after)) <= 1)%nat /\
  (length (List.filter is_search (events_of after)) <= 1)%nat /\
  (forall req, In (PlacesSearch req) (events_of after) ->
     coordinatesOf message = Some (req_ll req) /\
     req_query req = JStr "amusement" /\ req_radius req = 100000).
Proof.
  cbv zeta.
  destruct (decide (msg_text message = Some "/start")) as [Hs|Hs].
  - rewrite (VariantDispatch.amusement_start env message tt Hs).
    unfold events_of; cbn [snd].
    split; [repeat constructor |]. split; [repeat constructor |].
    split; [cbn; lia |]. split; [cbn; lia |].
    intros req [H | []]. discriminate H.
  - destruct (coordinatesOf message) as [[lat lon]|] eqn:Hc.
    + rewrite (VariantDispatch.amusement_coordinates env message tt _ _ Hs Hc).
      rewrite AmusementFacts.amusement_handleLocation_normal. cbv zeta.
      destruct (Js.get _ "length") as [len|e];
        [destruct (Js.is_zero len);
         [| destruct (array_map _ _) as [names|e];
            [destruct (summarizerAnswer env _) as [suggestions|e] |]] |];
        unfold events_of; cbn [snd];
        (split; [repeat constructor |]);
        (split; [repeat constructor; cbn; eauto |]);
        (split; [cbn; lia |]); (split; [cbn; lia |]);
        intros req Hin; cbn [In] in Hin;
        decompose [or] Hin; try discriminate; try contradiction;
        match goal with
        | E : PlacesSearch _ = PlacesSearch _ |- _ => injection E as <-
        end; cbn; auto.
    + rewrite (VariantDispatch.amusement_other env message tt Hs Hc).
      unfold events_of; cbn [snd].
      split; [repeat constructor |]. split; [repeat constructor |].
      split; [cbn; lia |]. split; [cbn; lia |].
      intros req [H | []]. discriminate H.
Qed.

Lemma amusement_turn_witness :
  coordinatesOf (textMessage "40.7,-74.0") =
  Some (JNum (fst sample_location), JNum (snd sample_location)).
Proof.
  pose proof (amusement_turn env_two_places (textMessage "40.7,-74.0"))
    as (_ & _ & _ & _ & H).
  exact (proj1 (H {| req_ll := (JNum (fst sample_location), JNum (snd sample_location));
                     req_radius := 100000; req_query := JStr "amusement" |}
                  ltac:(left; reflexivity))).
Defined.

(** X21. What a failed send leaves behind in [index.mjs]: [/start] and a
    location-seeking text write the state before they reply, so the state
    has changed although the reply was not delivered; the enrichment
    pipeline resets the state after its reply, so with an undelivered reply
    the chat keeps awaiting with its query. *)
Theorem undelivered_reply env message (st : gmap Z Index.UserState) (e : exn) :
  let chatId := msg_chat_id message in
  (msg_text message = Some "/start" ->
   telegram_post env chatId Index.greeting = Some e ->
   Index.handleMessage env message st =
   (Throw e, <[chatId := Index.idle]> st, [TelegramSend chatId Index.greeting])) /\
  (forall text,
   msg_text message = Some text -> text <> "/start" ->
   coordinatesOf message = None -> checkIfLocationBased text = true ->
   telegram_post env chatId askLocation = Some e ->
   Index.handleMessage env message st =
   (Throw e,
    <[chatId := {| Index.awaitingLocation := true;
                   Index.query := JsString.trim text |}]> st,
    [TelegramSend chatId askLocation])) /\
  (forall q latitude longitude names suggestions,
   let req := {| req_ll := (latitude, longitude); req_radius := 5000;
                 req_query := JStr q |} in
   st !! chatId = Some {| Index.awaitingLocation := true; Index.query := q |} ->
   msg_text message <> Some "/start" ->
   coordinatesOf message = Some (latitude, longitude) ->
   Index.noPlaces (fetchResults (foursquare_get env req)) = Ok false ->
   array_map (fun place => Js.get place "name") (fetchResults (foursquare_get env req))
     = Ok names ->
   summarizerAnswer env (Index.placesPrompt env names) = Ok suggestions ->
   telegram_post env chatId suggestions = Some e ->
   Index.handleMessage env message st =
   (Throw e, st,
    [PlacesSearch req;
     ChatCompletion (summarizerExchange (Index.placesPrompt env names));
     TelegramSend chatId suggestions])).
Proof.
  intros chatId. split; [| split].
  - intros Ht Hsend. rewrite (DispatchFacts.handleMessage_start env message st Ht).
    fold chatId. unfold sent. now rewrite Hsend.
  - intros text Ht Hs Hc Hcls Hsend.
    rewrite (DispatchFacts.handleMessage_text env message st text Ht Hs Hc), Hcls.
    fold chatId. unfold sent. now rewrite Hsend.
  - intros q latitude longitude names suggestions req Hst Hs Hc Hno Hn Hsum Hsend.
    destruct (DispatchFacts.awaiting_lookup st chatId q Hst) as [Haw Hq].
    rewrite (DispatchFacts.handleMessage_coordinates env message st _ _ Hs Hc).
    fold chatId. rewrite Haw, Hq, TurnFacts.handleLocation_normal. cbv zeta. fold req.
    rewrite Hno, Hn, Hsum. unfold sent. now rewrite Hsend.
Qed.

Lemma undelivered_reply_witness :
  let env := {| telegram_post := fun _ _ => Some FetchError;
                foursquare_get := foursquare_get env_two_places;
                sdk_placeSearch := sdk_placeSearch env_two_places;
                openai_create := openai_create env_two_places;
                Number_toString := Number_toString env_two_places |} in
  store_of (Index.handleMessage env (textMessage "/start") awaitingPizza)
    = <[7 := Index.idle]> awaitingPizza /\
  store_of (Index.handleMessage env locationMessage awaitingPizza) = awaitingPizza.
Proof.
  intros env.
  pose proof (undelivered_reply env (textMessage "/start") awaitingPizza FetchError)
    as (Hstart & _).
  pose proof (undelivered_reply env locationMessage awaitingPizza FetchError)
    as (_ & _ & Hpipe).
  split.
  - now rewrite (Hstart eq_refl eq_refl).
  - now rewrite (Hpipe "pizza nearby" (JNum (fst sample_location))
                   (JNum (snd sample_location)) [JStr "Luigi"; JStr "Mario"]
                   "Luigi is the best." eq_refl ltac:(discriminate) eq_refl
                   eq_refl eq_refl eq_refl eq_refl).
Defined.
